(** * Orders microservice: the order store and its five request handlers

  A shallow embedding of the Express router of the orders API, which owns
  the in-memory [orders] array, with the part of the JavaScript runtime
  and of the Joi validation library that its handlers rely on, followed by
  the properties of the order store.

  A handler is a function from the request and the array to the response
  and the array it leaves.  Numbers of a request body are binary64, as in
  the runtime.  The integers of the pagination (array lengths and indices,
  and the integers that query parameters spell) are in [Z]; the listing
  is modelled for the query parameters that spell a safe integer in
  decimal digits, on which the arithmetic of the runtime agrees with that
  of [Z] (see [JS.safe_decimal] and [list_orders_query]). *)

From Stdlib Require Import ZArith String Ascii List Lia.
From Stdlib Require Import PrimFloat.
From Stdlib Require SpecFloat FloatOps Uint63.
From stdpp Require Import base list strings pretty.

Set Warnings "-inexact-float,-register-all".
Open Scope string_scope.
Open Scope list_scope.

(** ** JavaScript values *)

(** The values a parsed JSON body or a parsed query string can hold.
  Numbers are IEEE 754 binary64.  An object is the list of its own
  properties, in the order of [Object.keys]. *)
Inductive jsval :=
| VUndefined
| VNull
| VBool (b : bool)
| VNum (n : PrimFloat.float)
| VStr (s : string)
| VArr (elems : list jsval)
| VObj (props : list (string * jsval)).

Module JS.

(** [o[k]]: the value of property [k], [undefined] when [o] has none. *)
Fixpoint prop (k : string) (props : list (string * jsval)) : jsval :=
  match props with
  | [] => VUndefined
  | (k', v) :: rest => if String.eqb k' k then v else prop k rest
  end.

(** [Object.keys(o)]. *)
Definition keys (props : list (string * jsval)) : list string := props.*1.

(** [Object.hasOwn(o, k)]. *)
Definition has_own (k : string) (props : list (string * jsval)) : bool :=
  existsb (String.eqb k) (keys props).

(** ToBoolean. *)
Definition truthy (v : jsval) : bool :=
  match v with
  | VUndefined | VNull => false
  | VBool b => b
  | VNum n => negb (PrimFloat.eqb n PrimFloat.zero || PrimFloat.is_nan n)
  | VStr s => negb (String.eqb s "")
  | VArr _ | VObj _ => true
  end.

(** [s === v] for a string [s]: [v] must be a string, and the same one. *)
Definition strict_equals_string (s : string) (v : jsval) : bool :=
  match v with
  | VStr s' => String.eqb s s'
  | _ => false
  end.

(** [Array.prototype.includes] on an array of strings. *)
Definition includes (l : list string) (v : jsval) : bool :=
  existsb (fun s => strict_equals_string s v) l.

(** A relative index of [Array.prototype.slice]: a negative index counts
    from the end, and the result is clamped to [0, len]. *)
Definition relative_index (len i : Z) : Z :=
  if (i <? 0)%Z then Z.max (len + i) 0 else Z.min i len.

(** [l.slice(start, end)]; a new array, [l] is not modified. *)
Definition slice {A} (start end_ : Z) (l : list A) : list A :=
  let len := Z.of_nat (length l) in
  let k := relative_index len start in
  let final := relative_index len end_ in
  take (Z.to_nat (final - k)) (drop (Z.to_nat k) l).

(** [l.findIndex(P)], [None] for -1. *)
Definition findIndex {A} (P : A → Prop) `{∀ x, Decision (P x)}
    (l : list A) : option nat :=
  fst <$> list_find P l.

(** [l.find(P)], [None] for undefined. *)
Definition find {A} (P : A → Prop) `{∀ x, Decision (P x)}
    (l : list A) : option A :=
  snd <$> list_find P l.

(** [l.splice(i, 1)]: the removed elements and the array left behind. *)
Definition splice1 {A} (i : nat) (l : list A) : list A * list A :=
  (take 1 (drop i l), delete i l).

(** [Math.ceil(a / b)] for integers [a] and [b]; [None] when the quotient
    is not finite ([b = 0]), which JSON renders as null. *)
Definition ceil_div (a b : Z) : option Z :=
  if (b =? 0)%Z then None else Some (- ((- a) / b))%Z.

(** Is a binary64 number an integer ([Math.trunc(n) - n === 0])?  A finite
    number is [m * 2^e]. *)
Definition is_integer (n : PrimFloat.float) : bool :=
  match FloatOps.Prim2SF n with
  | SpecFloat.S754_zero _ => true
  | SpecFloat.S754_finite _ m e =>
      (0 <=? e)%Z || (Z.land (Z.pos m) (Z.ones (- e)) =? 0)%Z
  | _ => false
  end.

Definition of_nat (n : nat) : PrimFloat.float :=
  PrimFloat.of_uint63 (Uint63.of_Z (Z.of_nat n)).

(** [Number.MAX_SAFE_INTEGER], 2^53 - 1. *)
Definition MAX_SAFE_INTEGER : PrimFloat.float :=
  PrimFloat.of_uint63 (Uint63.of_Z (2 ^ 53 - 1)).

(** [Number.isSafeInteger(n)] for an integer [n]. *)
Definition is_safe_integer (n : Z) : bool := (Z.abs n <=? 2 ^ 53 - 1)%Z.

(** The decimal digit that a character is. *)
Definition digit (c : ascii) : option Z :=
  let n := Z.of_N (N_of_ascii c) in
  if ((48 <=? n) && (n <=? 57))%Z then Some (n - 48)%Z else None.

(** The integer that a string of decimal digits spells after the digits
    [acc]. *)
Fixpoint digits (acc : Z) (s : string) : option Z :=
  match s with
  | EmptyString => Some acc
  | String c rest =>
      match digit c with
      | Some d => digits (10 * acc + d) rest
      | None => None
      end
  end.

(** The strings on which the two readings of a query parameter agree: an
    optional minus sign and one or more decimal digits that spell a safe
    integer [n].  For such a string [s] the number that [s - 1], [s * t]
    and [a / s] compute with ([Number(s)]) and [parseInt(s)] are both [n].
    No other string is read here: on another spelling of a number the two
    differ ([Number] reads 1e1 as 10 and [parseInt] as 1), or give a
    number that is not an integer or not a safe one, which a binary64
    rounds (9007199254740993 is read as 9007199254740992). *)
Definition safe_decimal (s : string) : option Z :=
  let '(negative, ds) :=
    match s with
    | String "-"%char rest => (true, rest)
    | _ => (false, s)
    end in
  match ds with
  | EmptyString => None
  | _ =>
      match digits 0 ds with
      | Some n =>
          if is_safe_integer n then Some (if negative then (- n)%Z else n)
          else None
      | None => None
      end
  end.

End JS.

(** ** Joi *)

(** The schema combinators that [orderSchema] is built from, and
  [schema.validate] under the two settings of its [abortEarly] option. *)
Module Joi.

Inductive presence := Optional | Required.

Inductive number_rule :=
| Integer
| Min (limit : nat)
| Positive.

Inductive schema :=
| JString (p : presence)
| JNumber (rules : list number_rule) (p : presence)
| JArray (items : schema) (min : option nat) (p : presence)
| JObject (keys : list (string * schema)) (p : presence).

Definition presence_of (s : schema) : presence :=
  match s with
  | JString p | JNumber _ p | JArray _ _ p | JObject _ p => p
  end.

Definition dquote : string := String "034"%char "".

(** The label of a path: the root is called value. *)
Definition label (path : string) : string :=
  if String.eqb path "" then "value" else path.

Definition message (path what : string) : string :=
  dquote +:+ label path +:+ dquote +:+ " " +:+ what.

Definition key_path (path k : string) : string :=
  if String.eqb path "" then k else path +:+ "." +:+ k.

Definition index_path (path : string) (i : nat) : string :=
  path +:+ "[" +:+ pretty i +:+ "]".

(** Sequencing of two groups of checks: with [abortEarly] the second
    group is not reached once the first has reported an error. *)
Definition and_then (abortEarly : bool) (e1 e2 : list string) : list string :=
  if abortEarly then match e1 with [] => e2 | _ => e1 end else e1 ++ e2.

Definition check_rule (path : string) (n : PrimFloat.float)
    (r : number_rule) : list string :=
  match r with
  | Integer =>
      if JS.is_integer n then [] else [message path "must be an integer"]
  | Min limit =>
      if PrimFloat.leb (JS.of_nat limit) n then []
      else [message path ("must be greater than or equal to " +:+ pretty limit)]
  | Positive =>
      if PrimFloat.ltb PrimFloat.zero n then []
      else [message path "must be a positive number"]
  end.

(** With the [convert] option, which is on by default, [Joi.number()]
    also takes a string that spells a number, and validates the number in
    its place.  How a string is read (a regular expression, [parseFloat]
    and a comparison of the digits) is Joi's and the runtime's, and is a
    parameter of the model: the string is not numeric, or spells a number
    that a binary64 cannot hold safely, or is converted to a number. *)
Inductive coercion :=
| NotNumeric
| Unsafe
| Converted (n : PrimFloat.float).

Class Convert := coerce_number : string -> coercion.

(** The number that a value is validated as, and that the validated value
    holds in its place. *)
Definition number_value `{Convert} (v : jsval) : option PrimFloat.float :=
  match v with
  | VNum n => Some n
  | VStr s =>
      match coerce_number s with
      | Converted n => Some n
      | _ => None
      end
  | _ => None
  end.

(** The base check of [Joi.number()], which ends the validation of the
    value when it fails, then the rules in the order they were added. *)
Definition check_number (abortEarly : bool) (rules : list number_rule)
    (path : string) (n : PrimFloat.float) : list string :=
  if PrimFloat.is_infinity n then [message path "cannot be infinity"]
  else if PrimFloat.is_nan n then [message path "must be a number"]
  else if PrimFloat.ltb JS.MAX_SAFE_INTEGER (PrimFloat.abs n)
  then [message path "must be a safe number"]
  else foldr (fun r rest => and_then abortEarly (check_rule path n r) rest)
         [] rules.

Definition validate_number `{Convert} (abortEarly : bool)
    (rules : list number_rule) (path : string) (v : jsval) : list string :=
  match v with
  | VNum n => check_number abortEarly rules path n
  | VStr s =>
      match coerce_number s with
      | Converted n => check_number abortEarly rules path n
      | Unsafe => [message path "must be a safe number"]
      | NotNumeric => [message path "must be a number"]
      end
  | _ => [message path "must be a number"]
  end.

Definition validate_string (path : string) (v : jsval) : list string :=
  match v with
  | VStr s =>
      if String.eqb s "" then [message path "is not allowed to be empty"]
      else []
  | _ => [message path "must be a string"]
  end.

Definition check_min (path : string) (min : option nat) (len : nat)
    : list string :=
  match min with
  | Some limit =>
      if (limit <=? len)%nat then []
      else [message path ("must contain at least " +:+ pretty limit +:+ " items")]
  | None => []
  end.

(** Joi validates an object on a shallow copy of it: a new object that
    [Object.assign] fills from the value.  The assignment of the key
    __proto__ creates no property of the copy: it runs the setter of
    [Object.prototype], which makes the assigned value, when it is an
    object, the prototype of the copy (null leaves the copy without a
    prototype, and any other value is ignored).  Every other own property
    of the value becomes an own property of the copy. *)
Definition copied (props : list (string * jsval)) : list (string * jsval) :=
  List.filter (fun kv => negb (String.eqb kv.1 "__proto__")) props.

(** [copy[k]], as Joi reads a declared key [k] of the copy: the own
    property of the value and, when it has none, the property of the
    object that the value holds under __proto__, which has become the
    prototype of the copy.  This is for the keys of [orderSchema] below:
    none of them is __proto__ or a property of [Object.prototype] or of
    [Array.prototype], where the lookup ends with undefined.  Joi then
    stores the validated value under [k] in the copy, which is the [value]
    that [validate] returns. *)
Definition get (k : string) (props : list (string * jsval)) : jsval :=
  if JS.has_own k props then JS.prop k props
  else
    match JS.prop "__proto__" props with
    | VObj proto => JS.prop k proto
    | _ => VUndefined
    end.

(** The keys of the copy ([Object.keys]) that the schema does not declare:
    unknown keys are not allowed. *)
Definition unknown_keys (declared : list string) (props : list (string * jsval))
    : list string :=
  List.filter (fun k => negb (existsb (String.eqb k) declared))
    (JS.keys (copied props)).

Definition check_unknown (abortEarly : bool) (path : string)
    (unknown : list string) : list string :=
  foldr (fun k rest =>
           and_then abortEarly [message (key_path path k) "is not allowed"] rest)
    [] unknown.

(** The two loops of the validation of a value: over the elements of an
    array, each against the schema of the items, and over the keys that an
    object schema declares, in the order of their declaration, each read
    from the copy of the object.
    [validate_child] is the validation of one value against one schema. *)
Section Children.

Variable abortEarly : bool.
Variable validate_child : schema -> string -> jsval -> list string.

Fixpoint validate_items (items : schema) (path : string) (i : nat)
    (elems : list jsval) : list string :=
  match elems with
  | [] => []
  | x :: rest =>
      and_then abortEarly
        match x with
        | VUndefined =>
            [message (index_path path i) "must not be a sparse array item"]
        | _ => validate_child items (index_path path i) x
        end
        (validate_items items path (S i) rest)
  end.

Fixpoint validate_keys (path : string) (props : list (string * jsval))
    (keys : list (string * schema)) : list string :=
  match keys with
  | [] => []
  | (k, child) :: rest =>
      and_then abortEarly
        (validate_child child (key_path path k) (get k props))
        (validate_keys path props rest)
  end.

End Children.

(** [schema.$_validate(value)] at [path], as the list of the messages of
    the errors found ([error.details.map(d => d.message)]); the empty list
    when there is no error. *)
Fixpoint validate_at `{Convert} (abortEarly : bool) (s : schema)
    (path : string) (v : jsval) {struct s} : list string :=
  match v with
  | VUndefined =>
      match presence_of s with
      | Required => [message path "is required"]
      | Optional => []
      end
  | _ =>
      match s with
      | JString _ => validate_string path v
      | JNumber rules _ => validate_number abortEarly rules path v
      | JArray items min _ =>
          match v with
          | VArr elems =>
              and_then abortEarly
                (validate_items abortEarly (validate_at abortEarly) items path
                   0%nat elems)
                (check_min path min (length elems))
          | _ => [message path "must be an array"]
          end
      | JObject keys _ =>
          match v with
          | VObj props =>
              and_then abortEarly
                (validate_keys abortEarly (validate_at abortEarly) path props
                   keys)
                (check_unknown abortEarly path (unknown_keys keys.*1 props))
          | _ => [message path "must be of type object"]
          end
      end
  end.

(** [schema.validate(value)]: the options default to [abortEarly: true]. *)
Definition validate `{Convert} (s : schema) (v : jsval) : list string :=
  validate_at true s "" v.

(** [schema.validate(value, { abortEarly: false })]: every violated
    constraint of the value. *)
Definition violations `{Convert} (s : schema) (v : jsval) : list string :=
  validate_at false s "" v.

End Joi.

(** ** The order store *)

(** A line item, a shipping address and the three fields of a creation
    request: the [value] that [orderSchema.validate] hands back, which has
    these properties and no other once it has passed (lemmas [valid_value]
    and [valid_value_keys] below). *)
Record item := {
  productId : string;
  quantity : PrimFloat.float;
  price : PrimFloat.float
}.

Record address := {
  street : string;
  city : string;
  zipCode : string;
  country : string
}.

Record order_value := {
  customerId : string;
  items : list item;
  shippingAddress : address
}.

(** A stored order: [{ id, ...value, status, total, createdAt, updatedAt }]. *)
Module Order.
Record t := {
  id : string;
  value : order_value;
  status : string;
  total : PrimFloat.float;
  createdAt : string;
  updatedAt : string
}.
End Order.

Abbreviation order := Order.t.

(** [order.status = s] and [order.updatedAt = t], assignments to one
    property of a stored order. *)
Definition set_status (s : string) (o : order) : order :=
  {| Order.id := Order.id o;
     Order.value := Order.value o;
     Order.status := s;
     Order.total := Order.total o;
     Order.createdAt := Order.createdAt o;
     Order.updatedAt := Order.updatedAt o |}.

Definition set_updatedAt (t : string) (o : order) : order :=
  {| Order.id := Order.id o;
     Order.value := Order.value o;
     Order.status := Order.status o;
     Order.total := Order.total o;
     Order.createdAt := Order.createdAt o;
     Order.updatedAt := t |}.

Module Pagination.
Record t := {
  page : Z;
  limit : Z;
  total : nat;
  pages : option Z
}.
End Pagination.

(** What a handler sends: the status code and the JSON body, one
    constructor for each shape of body the router produces. *)
Inductive response :=
| OrderList (code : nat) (orders : list order) (pagination : Pagination.t)
| OrderJson (code : nat) (o : order)
| ErrorJson (code : nat) (error : string)
| ValidationFailed (code : nat) (error : string) (details : list string)
| InvalidStatus (code : nat) (error : string) (validStatuses : list string)
| Deleted (code : nat) (message : string) (o : option order).

Import Joi.

Definition orderSchema : schema :=
  JObject [
    ("customerId", JString Required);
    ("items",
      JArray
        (JObject [
           ("productId", JString Required);
           ("quantity", JNumber [Integer; Min 1] Required);
           ("price", JNumber [Positive] Required)
         ] Optional)
        (Some 1%nat) Required);
    ("shippingAddress",
      JObject [
        ("street", JString Required);
        ("city", JString Required);
        ("zipCode", JString Required);
        ("country", JString Required)
      ] Required)
  ] Optional.

(** The two nested schemas of [orderSchema], by name. *)
Definition itemSchema : schema :=
  JObject [
    ("productId", JString Required);
    ("quantity", JNumber [Integer; Min 1] Required);
    ("price", JNumber [Positive] Required)
  ] Optional.

Definition addressSchema : schema :=
  JObject [
    ("street", JString Required);
    ("city", JString Required);
    ("zipCode", JString Required);
    ("country", JString Required)
  ] Required.

(** The properties that the handler reads from the validated value:
    [value.items], [item.price] and [item.quantity] in the reduce, and the
    properties that the spread copies into the order.  The validated value
    of an object is the copy that Joi made of it, in which every declared
    key holds, as an own property, the validated value of what [get] read
    under that key; a number is read as validation leaves it.  [None] for
    a value that has no such properties; [value.items] throws on
    undefined. *)
Definition read_item `{Convert} (v : jsval) : option item :=
  match v with
  | VObj props =>
      match get "productId" props,
            number_value (get "quantity" props),
            number_value (get "price" props) with
      | VStr p, Some q, Some pr =>
          Some {| productId := p; quantity := q; price := pr |}
      | _, _, _ => None
      end
  | _ => None
  end.

Definition read_address (v : jsval) : option address :=
  match v with
  | VObj props =>
      match get "street" props, get "city" props,
            get "zipCode" props, get "country" props with
      | VStr s, VStr c, VStr z, VStr n =>
          Some {| street := s; city := c; zipCode := z; country := n |}
      | _, _, _, _ => None
      end
  | _ => None
  end.

Definition read_value `{Convert} (v : jsval) : option order_value :=
  match v with
  | VObj props =>
      match get "customerId" props, get "items" props with
      | VStr c, VArr elems =>
          match mapM read_item elems,
                read_address (get "shippingAddress" props) with
          | Some its, Some a =>
              Some {| customerId := c; items := its; shippingAddress := a |}
          | _, _ => None
          end
      | _, _ => None
      end
  | _ => None
  end.

(** [items.reduce((sum, item) => sum + (item.price * item.quantity), 0)] *)
Definition items_total (its : list item) : PrimFloat.float :=
  foldl (fun sum it => PrimFloat.add sum (PrimFloat.mul (price it) (quantity it)))
    PrimFloat.zero its.

Definition validStatuses : list string :=
  ["pending"; "processing"; "shipped"; "delivered"; "cancelled"].

(** *** The handlers

    Each handler takes the request and the [orders] array and gives the
    response and the array it leaves.  What a handler draws from its
    environment is an argument: [uuid] is the result of [uuidv4()], [now1],
    [now2] and [now] are the results of the successive
    [new Date().toISOString()]. *)

(** GET /api/orders.  [filter_by_status] is the first step of the
    handler, the value of [filteredOrders].  In [list_orders] the
    parameters [page] and [limit] are the integers that the arithmetic of
    the handler and [parseInt] both read in the query parameters of these
    names, [None] for a parameter that is absent and takes its default.
    The products are those of [Z]: a binary64 holds them as long as they
    are safe integers and rounds them beyond, where [slice] clamps them to
    the length of the array, which is below 2^32, all the same. *)
Definition filter_by_status (status : jsval) (orders : list order)
    : list order :=
  if JS.truthy status
  then List.filter (fun o => JS.strict_equals_string (Order.status o) status)
         orders
  else orders.

Definition list_orders (page limit : option Z) (status : jsval)
    (orders : list order) : response * list order :=
  let page := default 1%Z page in
  let limit := default 10%Z limit in
  let filteredOrders := filter_by_status status orders in
  let startIndex := ((page - 1) * limit)%Z in
  let endIndex := (page * limit)%Z in
  let paginatedOrders := JS.slice startIndex endIndex filteredOrders in
  (OrderList 200 paginatedOrders
     {| Pagination.page := page;
        Pagination.limit := limit;
        Pagination.total := length filteredOrders;
        Pagination.pages := JS.ceil_div (Z.of_nat (length filteredOrders)) limit |},
   orders).

(** The listing on the query as it arrives: [page] and [limit] are
    strings, [None] when absent.  The model reads the strings of
    [JS.safe_decimal], on which the subtraction, the products and the
    quotient of the handler and its two [parseInt] see the same integer;
    the outer [None] is for a query that the model does not read. *)
Definition query_integer (q : option string) : option (option Z) :=
  match q with
  | None => Some None
  | Some s =>
      match JS.safe_decimal s with
      | Some n => Some (Some n)
      | None => None
      end
  end.

Definition list_orders_query (page limit : option string) (status : jsval)
    (orders : list order) : option (response * list order) :=
  match query_integer page, query_integer limit with
  | Some page, Some limit => Some (list_orders page limit status orders)
  | _, _ => None
  end.

(** GET /api/orders/:id *)
Definition get_order (rid : string) (orders : list order)
    : response * list order :=
  match JS.find (fun o => Order.id o = rid) orders with
  | None => (ErrorJson 404 "Order not found", orders)
  | Some o => (OrderJson 200 o, orders)
  end.

(** POST /api/orders *)
Definition create `{Convert} (uuid now1 now2 : string) (body : jsval)
    (orders : list order) : response * list order :=
  match validate orderSchema body with
  | (_ :: _) as details =>
      (ValidationFailed 400 "Validation failed" details, orders)
  | [] =>
      match read_value body with
      | Some v =>
          let o := {| Order.id := uuid;
                      Order.value := v;
                      Order.status := "pending";
                      Order.total := items_total (items v);
                      Order.createdAt := now1;
                      Order.updatedAt := now2 |} in
          (OrderJson 201 o, orders ++ [o])
      | None => (ErrorJson 500 "Failed to create order", orders)
      end
  end.

(** PUT /api/orders/:id/status.  [status] is the property of that name of
    the request body.  [includes] compares with [===], so only a string
    passes the first check. *)
Definition update_status (now rid : string) (status : jsval)
    (orders : list order) : response * list order :=
  if negb (JS.includes validStatuses status)
  then (InvalidStatus 400 "Invalid status" validStatuses, orders)
  else
    match status, list_find (fun o => Order.id o = rid) orders with
    | VStr s, Some (orderIndex, o) =>
        let o1 := set_status s o in
        let o2 := set_updatedAt now o1 in
        (OrderJson 200 o2, <[orderIndex := o2]> orders)
    | _, _ => (ErrorJson 404 "Order not found", orders)
    end.

(** DELETE /api/orders/:id *)
Definition delete_order (rid : string) (orders : list order)
    : response * list order :=
  match JS.findIndex (fun o => Order.id o = rid) orders with
  | None => (ErrorJson 404 "Order not found", orders)
  | Some orderIndex =>
      let '(removed, rest) := JS.splice1 orderIndex orders in
      (Deleted 200 "Order deleted successfully" (head removed), rest)
  end.

(** *** The router *)

Inductive request :=
| POST_orders (uuid now1 now2 : string) (body : jsval)
| GET_orders (page limit : option Z) (status : jsval)
| GET_order (rid : string)
| PUT_status (now rid : string) (status : jsval)
| DELETE_order (rid : string).

Definition handle `{Convert} (r : request) (orders : list order)
    : response * list order :=
  match r with
  | POST_orders uuid now1 now2 body => create uuid now1 now2 body orders
  | GET_orders page limit status => list_orders page limit status orders
  | GET_order rid => get_order rid orders
  | PUT_status now rid status => update_status now rid status orders
  | DELETE_order rid => delete_order rid orders
  end.

(** The store after a sequence of requests; it starts empty
    ([let orders = []]). *)
Definition run `{Convert} (rs : list request) (orders : list order)
    : list order :=
  foldl (fun st r => (handle r st).2) orders rs.

(** ** Vocabulary of the properties *)

Definition is_undefined (v : jsval) : bool :=
  match v with
  | VUndefined => true
  | _ => false
  end.

(** The fields of a creation input are taken as validation reads them
    ([Joi.get]): a field of an object is what the object has under its
    name, or else what the object that it holds under __proto__ has. *)


Definition lacks_one_of (ks : list string) (v : jsval) : bool :=
  match v with
  | VObj props => existsb (fun k => is_undefined (get k props)) ks
  | _ => false
  end.

(** A creation input that lacks a required field: of the order, of its
    shipping address or of one of its items. *)
Definition missing_required (body : jsval) : bool :=
  lacks_one_of ["customerId"; "items"; "shippingAddress"] body
  || match body with
     | VObj props =>
         lacks_one_of ["street"; "city"; "zipCode"; "country"]
           (get "shippingAddress" props)
         || match get "items" props with
            | VArr elems =>
                existsb (lacks_one_of ["productId"; "quantity"; "price"]) elems
            | _ => false
            end
     | _ => false
     end.

(** A conversion that takes no string for a number, for the examples. *)
#[export] Instance json_numbers : Convert := fun _ => NotNumeric.

(** The two creation requests of the test suite: the valid order, and
    the one that has a customer only. *)
Definition validOrder : jsval :=
  VObj [
    ("customerId", VStr "customer-123");
    ("items",
      VArr [
        VObj [
          ("productId", VStr "product-1");
          ("quantity", VNum 2%float);
          ("price", VNum 29.99%float)
        ]
      ]);
    ("shippingAddress",
      VObj [
        ("street", VStr "123 Main St");
        ("city", VStr "New York");
        ("zipCode", VStr "10001");
        ("country", VStr "USA")
      ])
  ].

Definition customer_only : jsval :=
  VObj [("customerId", VStr "customer-123")].

(** The store of the test suite after its two creations, and after the
    second order has been marked as shipped. *)
Definition two_orders `{Convert} : list order :=
  run [POST_orders "u1" "t1" "t1" validOrder;
       POST_orders "u2" "t2" "t2" validOrder] [].

Definition second_shipped `{Convert} : list order :=
  run [PUT_status "t3" "u2" (VStr "shipped")] two_orders.

(** The strings that an error response carries in its body. *)
Definition error_strings (r : response) : list string :=
  match r with
  | ErrorJson _ e => [e]
  | ValidationFailed _ e details => e :: details
  | InvalidStatus _ e valid => e :: valid
  | _ => []
  end.

(** The ids of the stored orders are pairwise distinct. *)
Definition unique_ids (orders : list order) : Prop :=
  NoDup (Order.id <$> orders).

(** No stored order has the id [rid]. *)
Definition absent (rid : string) (orders : list order) : Prop :=
  Forall (fun o => Order.id o <> rid) orders.

(** Every id that a creation of the sequence draws is new to the store
    at that time, as the ids of [uuidv4] are meant to be. *)
Fixpoint fresh_uuids `{Convert} (rs : list request) (orders : list order)
    : Prop :=
  match rs with
  | [] => True
  | r :: rs' =>
      (forall uuid now1 now2 body,
         r = POST_orders uuid now1 now2 body -> absent uuid orders)
      /\ fresh_uuids rs' (handle r orders).2
  end.

(** A status of the fixed set. *)
Definition known_status (s : string) : Prop :=
  s = "pending" \/ s = "processing" \/ s = "shipped" \/ s = "delivered"
  \/ s = "cancelled".

(** ** Vocabulary of the further properties *)

(** What validation grants of an item and of the fields of a creation
    request: the strings are not empty, there is an item, a quantity is an
    integer from 1 on and a price is above 0. *)
Definition well_formed_item (it : item) : Prop :=
  productId it <> "" /\
  JS.is_integer (quantity it) = true /\
  PrimFloat.leb (JS.of_nat 1) (quantity it) = true /\
  PrimFloat.ltb PrimFloat.zero (price it) = true.

Definition well_formed_value (v : order_value) : Prop :=
  customerId v <> "" /\
  items v <> [] /\
  Forall well_formed_item (items v) /\
  street (shippingAddress v) <> "" /\
  city (shippingAddress v) <> "" /\
  zipCode (shippingAddress v) <> "" /\
  country (shippingAddress v) <> "".

(** The ids that the creations of a sequence of requests draw. *)
Definition posted_uuids (rs : list request) : list string :=
  omap (fun r => match r with
                 | POST_orders uuid _ _ _ => Some uuid
                 | _ => None
                 end) rs.

(** The two reads of the router. *)
Definition is_read (r : request) : bool :=
  match r with
  | GET_orders _ _ _ | GET_order _ => true
  | _ => false
  end.

(** What no request rewrites in a stored order. *)
Definition immutable_part (o : order)
    : string * order_value * PrimFloat.float * string :=
  (Order.id o, Order.value o, Order.total o, Order.createdAt o).

(** The orders of the body of a list response. *)
Definition listed (r : response) : list order :=
  match r with
  | OrderList _ orders _ => orders
  | _ => []
  end.

(** Further requests and stores for the examples: the valid order with a
    status of its own, an order for no piece of its product, and the store
    after two creations that drew the same id. *)
Definition order_with_status : jsval :=
  VObj [
    ("customerId", VStr "customer-123");
    ("items",
      VArr [
        VObj [
          ("productId", VStr "product-1");
          ("quantity", VNum 2%float);
          ("price", VNum 29.99%float)
        ]
      ]);
    ("shippingAddress",
      VObj [
        ("street", VStr "123 Main St");
        ("city", VStr "New York");
        ("zipCode", VStr "10001");
        ("country", VStr "USA")
      ]);
    ("status", VStr "shipped")
  ].

Definition free_item : list (string * jsval) :=
  [("productId", VStr "product-1");
   ("quantity", VNum 0%float);
   ("price", VNum 29.99%float)].

Definition order_for_nothing : list (string * jsval) :=
  [("customerId", VStr "customer-123");
   ("items", VArr [VObj free_item]);
   ("shippingAddress",
     VObj [
       ("street", VStr "123 Main St");
       ("city", VStr "New York");
       ("zipCode", VStr "10001");
       ("country", VStr "USA")
     ])].

Definition same_id_twice `{Convert} : list Order.t :=
  run [POST_orders "u1" "t1" "t1" validOrder;
       POST_orders "u1" "t2" "t2" validOrder] [].


(** Bodies with a property named __proto__, as [JSON.parse] makes them
    from such a member: the valid order with one more property of that
    name, and a body that has the three fields of the valid order under
    that name only. *)
Definition with_proto (proto body : jsval) : jsval :=
  match body with
  | VObj props => VObj (("__proto__", proto) :: props)
  | _ => body
  end.

Definition valid_order_with_proto : jsval :=
  with_proto (VObj [("isAdmin", VBool true)]) validOrder.

Definition fields_under_proto : jsval :=
  VObj [("__proto__", validOrder)].

(** * Properties *)

(** The properties hold for every reading of numeric strings. *)
Section Properties.

Context {convert : Convert}.

(** ** Validation *)

(** With [abortEarly], validation reports the first of the violations
    that it reports without, and nothing when there is none. *)
Section JoiFacts.

Lemma and_then_nil b e1 e2 : and_then b e1 e2 = [] ↔ e1 = [] ∧ e2 = [].
Proof.
  unfold and_then.
  destruct b, e1; simpl; split; try tauto; try (intros [? ?]; congruence).
  all: intros; try discriminate; auto.
Qed.

Lemma and_then_take1 e1 e2 :
  and_then true (take 1 e1) (take 1 e2) = take 1 (and_then false e1 e2).
Proof. unfold and_then. by destruct e1. Qed.

Lemma schema_ind' (P : schema → Prop)
  (Hs : ∀ p, P (JString p))
  (Hn : ∀ rules p, P (JNumber rules p))
  (Ha : ∀ items min p, P items → P (JArray items min p))
  (Ho : ∀ keys p, Forall (λ kc, P kc.2) keys → P (JObject keys p)) :
  ∀ s, P s.
Proof.
  fix IH 1. intros [p|rules p|items min p|keys p].
  - apply Hs.
  - apply Hn.
  - apply Ha, IH.
  - apply Ho. induction keys as [|[k c] keys IHk]; constructor; [apply IH | apply IHk].
Qed.

Lemma check_number_abort rules path n :
  check_number true rules path n = take 1 (check_number false rules path n).
Proof.
  unfold check_number. repeat case_match; try done.
  induction rules as [|r rules IHr]; [done|]. cbn [foldr].
  rewrite IHr, <- and_then_take1. f_equal.
  unfold check_rule. by repeat case_match.
Qed.

Lemma validate_number_abort rules path v :
  validate_number true rules path v = take 1 (validate_number false rules path v).
Proof.
  unfold validate_number. destruct v; try done; [apply check_number_abort|].
  destruct (coerce_number s); try done. apply check_number_abort.
Qed.

Lemma check_unknown_abort path ks :
  check_unknown true path ks = take 1 (check_unknown false path ks).
Proof. by destruct ks. Qed.

Lemma validate_at_array b items min p path elems :
  validate_at b (JArray items min p) path (VArr elems) =
  and_then b (validate_items b (validate_at b) items path 0 elems)
    (check_min path min (length elems)).
Proof. reflexivity. Qed.

Lemma validate_at_object b keys p path props :
  validate_at b (JObject keys p) path (VObj props) =
  and_then b (validate_keys b (validate_at b) path props keys)
    (check_unknown b path (unknown_keys keys.*1 props)).
Proof. reflexivity. Qed.

Lemma validate_at_number b rules p path v :
  v ≠ VUndefined →
  validate_at b (JNumber rules p) path v = validate_number b rules path v.
Proof. by destruct v. Qed.

Lemma validate_at_string b p path v :
  v ≠ VUndefined →
  validate_at b (JString p) path v = validate_string path v.
Proof. by destruct v. Qed.

Lemma validate_items_abort items path i elems :
  (∀ path v,
     validate_at true items path v = take 1 (validate_at false items path v)) →
  validate_items true (validate_at true) items path i elems =
  take 1 (validate_items false (validate_at false) items path i elems).
Proof.
  intros IHi. revert i. induction elems as [|x elems IHe]; intros i; [done|].
  cbn [validate_items].
  rewrite (IHe (S i)), <- and_then_take1. f_equal.
  destruct x; try done; apply IHi.
Qed.

Lemma validate_at_abort s : ∀ path v,
  validate_at true s path v = take 1 (validate_at false s path v).
Proof.
  induction s as [p|rules p|items min p IHi|keys p IHk] using schema_ind'; intros path v.
  - destruct v; try by destruct p. all: cbn; by repeat case_match.
  - destruct v; try (by destruct p);
      rewrite !validate_at_number by done; apply validate_number_abort.
  - destruct v as [| | | | |elems|]; try by destruct p.
    rewrite !validate_at_array, <- and_then_take1. f_equal.
    2: { unfold check_min. by repeat case_match. }
    apply validate_items_abort, IHi.
  - destruct v as [| | | | | |props]; try by destruct p.
    rewrite !validate_at_object, check_unknown_abort, <- and_then_take1. f_equal.
    induction IHk as [|[k c] keys Hc _ IH]; [done|].
    cbn [validate_keys].
    rewrite IH, <- and_then_take1. f_equal. apply Hc.
Qed.

End JoiFacts.

(** A value that passes [orderSchema] has every property that the
    creation handler reads, under either setting of [abortEarly]. *)
Lemma valid_string b p path v :
  validate_at b (JString p) path v = [] → v = VUndefined ∨ ∃ s, v = VStr s.
Proof. destruct v; cbn; try discriminate; eauto. Qed.

Lemma valid_number b rules p path v :
  validate_at b (JNumber rules p) path v = [] →
  v = VUndefined ∨ ∃ n, number_value v = Some n.
Proof.
  destruct v as [| | |n|s| |]; cbn; try discriminate; eauto.
  destruct (coerce_number s); try discriminate; eauto.
Qed.

Lemma valid_required b s path v :
  validate_at b s path v = [] → presence_of s = Required → v ≠ VUndefined.
Proof. intros Hv Hp ->. destruct s; cbn in *; by rewrite Hp in Hv. Qed.

Ltac split_checks :=
  repeat match goal with
  | H : and_then _ _ _ = [] |- _ => apply and_then_nil in H; destruct H
  end.

Ltac known_props :=
  repeat match goal with
  | H : validate_at _ (JString Required) _ _ = [] |- _ =>
      let Hd := fresh in
      pose proof (valid_required _ _ _ _ H eq_refl) as Hd;
      apply valid_string in H as [?|[? H]]; [done|]; clear Hd
  | H : validate_at _ (JNumber _ Required) _ _ = [] |- _ =>
      let Hd := fresh in
      pose proof (valid_required _ _ _ _ H eq_refl) as Hd;
      apply valid_number in H as [?|[? H]]; [done|]; clear Hd
  end.

Ltac read_props :=
  repeat match goal with
  | H : get _ _ = _ |- _ => rewrite H; clear H
  | H : number_value _ = _ |- _ => rewrite H; clear H
  end.

Lemma valid_item b path x :
  x ≠ VUndefined → validate_at b itemSchema path x = [] →
  ∃ it, read_item x = Some it.
Proof.
  intros Hx Hv. destruct x as [| | | | | |props]; try done; try discriminate.
  unfold itemSchema in Hv. rewrite validate_at_object in Hv.
  cbn [validate_keys] in Hv. split_checks. known_props.
  unfold read_item. read_props. eauto.
Qed.

Lemma valid_items b path i elems :
  validate_items b (validate_at b) itemSchema path i elems = [] →
  ∃ its, mapM read_item elems = Some its.
Proof.
  revert i. induction elems as [|x elems IH]; intros i Hv; [by exists []|].
  cbn [validate_items] in Hv. apply and_then_nil in Hv as [Hx Hv].
  destruct (IH _ Hv) as [its Hits].
  destruct (valid_item b (index_path path i) x) as [it Hit].
  - intros ->. discriminate.
  - by destruct x.
  - exists (it :: its). cbn. by rewrite Hit, Hits.
Qed.

Lemma valid_address b path x :
  validate_at b addressSchema path x = [] → ∃ a, read_address x = Some a.
Proof.
  intros Hv. pose proof (valid_required _ _ _ _ Hv eq_refl) as Hx.
  destruct x as [| | | | | |props]; try done; try discriminate.
  unfold addressSchema in Hv. rewrite validate_at_object in Hv.
  cbn [validate_keys] in Hv. split_checks. known_props.
  unfold read_address. read_props. eauto.
Qed.

Lemma check_unknown_nil b path ks : check_unknown b path ks = [] → ks = [].
Proof.
  destruct ks as [|k ks]; [done|]. cbn [check_unknown foldr].
  intros [? _]%and_then_nil. discriminate.
Qed.

Lemma unknown_keys_nil declared props :
  unknown_keys declared props = [] →
  Forall (λ k, k ∈ declared) (JS.keys (copied props)).
Proof.
  unfold unknown_keys.
  induction (JS.keys (copied props)) as [|k ks IH]; [constructor|].
  cbn [List.filter].
  destruct (existsb (String.eqb k) declared) eqn:Hk; cbn [negb]; [|discriminate].
  intros Hks. constructor; [|by apply IH].
  apply existsb_exists in Hk as (k' & Hin & ->%String.eqb_eq).
  by apply list_elem_of_In.
Qed.

(** The copy has the own properties of the value but for __proto__, and
    reads an own property of the value in its place. *)
Lemma copied_keys k props :
  k ∈ JS.keys (copied props) ↔ k ∈ JS.keys props ∧ k ≠ "__proto__".
Proof.
  unfold JS.keys, copied. rewrite !list_elem_of_fmap. split.
  - intros ([k' v] & -> & Hin). apply list_elem_of_In, filter_In in Hin as [Hin Hk].
    cbn in *. split; [exists (k', v); by rewrite list_elem_of_In|].
    intros ->. by rewrite String.eqb_refl in Hk.
  - intros [([k' v] & -> & Hin) Hk]. exists (k', v). split; [done|].
    apply list_elem_of_In, filter_In. rewrite <- list_elem_of_In. split; [done|].
    cbn in *. by destruct (String.eqb_spec k' "__proto__").
Qed.

Lemma has_own_prop k props :
  JS.prop k props ≠ VUndefined → JS.has_own k props = true.
Proof.
  unfold JS.has_own. induction props as [|[k' v] props IH]; [done|].
  cbn. rewrite (String.eqb_sym k). destruct (String.eqb k' k); auto.
Qed.

Lemma get_own k props :
  JS.prop k props ≠ VUndefined → get k props = JS.prop k props.
Proof. intros H. unfold get. by rewrite has_own_prop. Qed.

Lemma has_own_keys k props : JS.has_own k props = true ↔ k ∈ JS.keys props.
Proof.
  unfold JS.has_own. rewrite existsb_exists, list_elem_of_In. split.
  - by intros (k' & Hin & ->%String.eqb_eq).
  - intros Hin. exists k. split; [done|]. apply String.eqb_refl.
Qed.

Lemma prop_not_own k props :
  JS.has_own k props = false → JS.prop k props = VUndefined.
Proof.
  unfold JS.has_own. induction props as [|[k1 v] props IH]; [done|].
  cbn. rewrite (String.eqb_sym k). destruct (String.eqb k1 k); [done|].
  apply IH.
Qed.

(** Without a property named __proto__ the copy reads the value itself. *)
Lemma get_plain k props :
  "__proto__" ∉ JS.keys props → get k props = JS.prop k props.
Proof.
  intros Hp. unfold get. destruct (JS.has_own k props) eqn:Hk; [done|].
  rewrite (prop_not_own k) by done.
  destruct (JS.has_own "__proto__" props) eqn:Hh.
  - by apply has_own_keys in Hh.
  - by rewrite (prop_not_own "__proto__").
Qed.

(** A body that passes has no property beyond the three of the schema,
    but for a property named __proto__, which none of the copies has: the
    spread copies these three into the order and nothing else, so that no
    property of the body takes the place of the id, the status, the total
    or a timestamp. *)
Lemma valid_value_keys b props :
  validate_at b orderSchema "" (VObj props) = [] →
  Forall (λ k, k ∈ ["customerId"; "items"; "shippingAddress"])
    (JS.keys (copied props)).
Proof.
  unfold orderSchema. rewrite validate_at_object.
  intros [_ Hu%check_unknown_nil]%and_then_nil.
  by apply unknown_keys_nil in Hu.
Qed.

Lemma valid_value b body :
  body ≠ VUndefined → validate_at b orderSchema "" body = [] →
  ∃ v, read_value body = Some v.
Proof.
  intros Hx Hv. destruct body as [| | | | | |props]; try done; try discriminate.
  unfold orderSchema in Hv. rewrite validate_at_object in Hv.
  cbn [validate_keys] in Hv. split_checks. known_props.
  match goal with
  | H : validate_at _ (JArray _ _ _) _ _ = [] |- _ => rename H into Hi
  end.
  pose proof (valid_required _ _ _ _ Hi eq_refl) as Hd.
  destruct (get "items" props) as [| | | | |elems|] eqn:Hitems;
    try done; try discriminate.
  rewrite validate_at_array in Hi. apply and_then_nil in Hi as [Hi _].
  apply valid_items in Hi as [its Hits].
  match goal with
  | H : validate_at _ (JObject _ _) _ _ = [] |- _ =>
      apply valid_address in H as [a Ha]
  end.
  unfold read_value. rewrite Hitems. read_props. rewrite Hits, Ha. eauto.
Qed.

(** ** Creation requests that fail validation *)

Lemma validate_first_violation s v :
  validate s v = take 1 (violations s v).
Proof. apply validate_at_abort. Qed.

Lemma validate_nil s v : validate s v = [] ↔ violations s v = [].
Proof. rewrite validate_first_violation. by destruct (violations s v). Qed.







Lemma create_invalid uuid now1 now2 body orders :
  violations orderSchema body ≠ [] →
  create uuid now1 now2 body orders =
    (ValidationFailed 400 "Validation failed" (take 1 (violations orderSchema body)), orders).
Proof.
  intros Hv. unfold create. rewrite validate_first_violation.
  by destruct (violations orderSchema body).
Qed.

(** C1, as amended.  For every creation input that violates the order
    schema, create answers 400 with the error Validation failed and a
    detail list of exactly one message: that of the first violated
    constraint, in the order in which the schema is checked.  The later
    violations of the same input are not reported, and the store is left
    as it was. *)
Theorem create_reports_first_violation uuid now1 now2 body orders m rest :
  violations orderSchema body = m :: rest →
  create uuid now1 now2 body orders =
    (ValidationFailed 400 "Validation failed" [m], orders).
Proof.
  intros Hv. rewrite create_invalid; by rewrite Hv.
Qed.


(** ** Arrays *)

Section Arrays.

Context {A : Type}.
Implicit Types l : list A.

Lemma slice_window l (start len : Z) :
  (0 ≤ start)%Z → (0 ≤ len)%Z →
  JS.slice start (start + len) l = take (Z.to_nat len) (drop (Z.to_nat start) l).
Proof.
  intros Hs Hl. unfold JS.slice, JS.relative_index.
  destruct (Z.ltb_spec start 0); [lia|].
  destruct (Z.ltb_spec (start + len) 0); [lia|].
  destruct (Z.le_gt_cases (Z.of_nat (length l)) start) as [Hge|Hlt].
  - rewrite (drop_ge l (Z.to_nat start)) by lia.
    rewrite Z.min_r by lia. rewrite drop_ge by lia. by rewrite !take_nil.
  - rewrite (Z.min_l start) by lia.
    destruct (Z.le_gt_cases (start + len) (Z.of_nat (length l))).
    + rewrite Z.min_l by lia. f_equal. lia.
    + rewrite Z.min_r by lia.
      rewrite !take_ge; [done|rewrite length_drop; lia..].
Qed.

Lemma findIndex_Some (P : A → Prop) `{∀ x, Decision (P x)} l i :
  JS.findIndex P l = Some i ↔
  ∃ x, l !! i = Some x ∧ P x ∧ ∀ j y, l !! j = Some y → j < i → ¬ P y.
Proof.
  unfold JS.findIndex. rewrite fmap_Some. split.
  - intros [[j x] [Hf ->]]. exists x. by apply list_find_Some in Hf.
  - intros [x Hx]. exists (i, x). split; [|done]. by apply list_find_Some.
Qed.

Lemma findIndex_None (P : A → Prop) `{∀ x, Decision (P x)} l :
  JS.findIndex P l = None ↔ Forall (λ x, ¬ P x) l.
Proof. unfold JS.findIndex. by rewrite fmap_None, list_find_None. Qed.

Lemma find_None (P : A → Prop) `{∀ x, Decision (P x)} l :
  JS.find P l = None ↔ Forall (λ x, ¬ P x) l.
Proof. unfold JS.find. by rewrite fmap_None, list_find_None. Qed.

Lemma splice1_lookup l i x :
  l !! i = Some x → JS.splice1 i l = ([x], delete i l).
Proof.
  intros Hi. unfold JS.splice1. f_equal.
  rewrite <- (take_drop_middle l i x Hi) at 1.
  rewrite drop_app_length'; [done|].
  rewrite length_take. apply lookup_lt_Some in Hi. lia.
Qed.

End Arrays.

Lemma ceil_div_spec (a b q : Z) :
  (0 < b)%Z → JS.ceil_div a b = Some q ↔ ((q - 1) * b < a ≤ q * b)%Z.
Proof.
  intros Hb. unfold JS.ceil_div.
  destruct (Z.eqb_spec b 0); [lia|].
  pose proof (Z.div_mod (- a) b ltac:(lia)) as Hdm.
  pose proof (Z.mod_pos_bound (- a) b Hb) as Hm.
  split.
  - intros [= <-]. nia.
  - intros Hq. f_equal. nia.
Qed.

(** ** Listing *)

Lemma filter_by_status_string s orders :
  s ≠ "" →
  filter_by_status (VStr s) orders = filter (λ o, Order.status o = s) orders.
Proof.
  intros Hs. unfold filter_by_status. cbn [JS.truthy].
  destruct (String.eqb_spec s ""); [done|]. cbn [negb JS.strict_equals_string].
  induction orders as [|o orders IH]; [done|].
  cbn [List.filter]. rewrite filter_cons, IH.
  destruct (String.eqb_spec (Order.status o) s); by case_decide.
Qed.

Lemma filter_by_status_falsy status orders :
  JS.truthy status = false → filter_by_status status orders = orders.
Proof. intros Hs. unfold filter_by_status. by rewrite Hs. Qed.

Lemma filter_by_status_sublist status orders :
  filter_by_status status orders `sublist_of` orders.
Proof.
  unfold filter_by_status. destruct (JS.truthy status); [|done].
  induction orders as [|o orders IH]; [done|]. cbn.
  case_match; by constructor.
Qed.

Lemma slice_sublist {A} (l : list A) a b : JS.slice a b l `sublist_of` l.
Proof.
  unfold JS.slice. etrans; [apply sublist_take|apply sublist_drop].
Qed.

(** *** The integers of the query *)

Lemma safe_decimal_safe s n :
  JS.safe_decimal s = Some n → JS.is_safe_integer n = true.
Proof.
  unfold JS.safe_decimal.
  destruct (match s with
            | String "-"%char rest => (true, rest)
            | _ => (false, s)
            end) as [negative ds].
  destruct ds; [discriminate|].
  destruct (JS.digits 0 _) as [m|]; [|discriminate].
  destruct (JS.is_safe_integer m) eqn:Hm; [|discriminate].
  intros [= <-]. destruct negative; [|done].
  unfold JS.is_safe_integer in *. by rewrite Z.abs_opp.
Qed.

(** Every safe integer has a spelling that is read as it, its decimal
    numeral (lemma [safe_decimal_pretty]), and only a safe integer has one
    (lemma [safe_decimal_safe] above). *)
Lemma digit_pretty_N_char (d : N) :
  (d < 10)%N → JS.digit (pretty_N_char d) = Some (Z.of_N d).
Proof.
  intros Hd.
  assert (d = 0 ∨ d = 1 ∨ d = 2 ∨ d = 3 ∨ d = 4 ∨ d = 5 ∨ d = 6 ∨ d = 7
          ∨ d = 8 ∨ d = 9)%N as H by lia.
  repeat (destruct H as [->|H]; [reflexivity|]). by subst.
Qed.

Lemma digits_pretty_N_go (x : N) : ∀ s acc,
  (0 < x)%N →
  ∃ k : Z, (0 < k)%Z ∧
    JS.digits acc (pretty_N_go x s) = JS.digits (acc * 10 ^ k + Z.of_N x) s.
Proof.
  induction (N.lt_wf_0 x) as [x _ IH]. intros s acc Hx.
  rewrite pretty_N_go_step by done.
  pose proof (N.div_mod x 10 ltac:(lia)) as Hdm.
  pose proof (N.mod_lt x 10 ltac:(lia)) as Hm.
  destruct (decide (x `div` 10 = 0)%N) as [Hz|Hz].
  - rewrite Hz, pretty_N_go_0. exists 1%Z. split; [lia|].
    cbn [JS.digits]. rewrite digit_pretty_N_char by done. f_equal. lia.
  - destruct (IH (x `div` 10)%N) with
      (s := String (pretty_N_char (x `mod` 10)) s) (acc := acc)
      as (k & Hk & ->); [apply N.div_lt; lia|lia|].
    exists (k + 1)%Z. split; [lia|].
    cbn [JS.digits]. rewrite digit_pretty_N_char by done. f_equal.
    rewrite Z.pow_add_r by lia. rewrite N2Z.inj_div, N2Z.inj_mod in *.
    change (Z.of_N 10) with 10%Z in *.
    pose proof (Z.div_mod (Z.of_N x) 10 ltac:(lia)). lia.
Qed.

Lemma digits_pretty_positive (p : positive) :
  JS.digits 0 (pretty p) = Some (Z.pos p).
Proof.
  unfold pretty, pretty_positive, pretty, pretty_N.
  rewrite decide_False by done.
  destruct (digits_pretty_N_go (N.pos p) "" 0 ltac:(lia)) as (k & _ & ->).
  cbn [JS.digits]. f_equal.
Qed.

Lemma safe_decimal_digits s n :
  JS.digits 0 s = Some n → s ≠ "" → JS.is_safe_integer n = true →
  JS.safe_decimal s = Some n.
Proof.
  intros Hd Hs Hn. destruct s as [|c rest]; [done|].
  assert (c ≠ "-"%char) as Hc by (intros ->; discriminate).
  unfold JS.safe_decimal.
  destruct c as [[] [] [] [] [] [] [] []]; try done; by rewrite Hd, Hn.
Qed.

Lemma safe_decimal_pretty (n : Z) :
  JS.is_safe_integer n = true → JS.safe_decimal (pretty n) = Some n.
Proof.
  intros Hn. pose proof digits_pretty_positive as Hd. destruct n as [|p|p].
  - reflexivity.
  - apply safe_decimal_digits; [apply Hd| |done].
    intros He. specialize (Hd p).
    change (pretty (Z.pos p)) with (pretty p) in He. rewrite He in Hd.
    discriminate.
  - change (pretty (Z.neg p)) with (String "-"%char (pretty p)).
    unfold JS.safe_decimal. specialize (Hd p).
    destruct (pretty p) as [|c rest] eqn:Hp; [discriminate|].
    rewrite Hd. unfold JS.is_safe_integer in *.
    change (Z.abs (Z.neg p)) with (Z.abs (Z.pos p)) in Hn. by rewrite Hn.
Qed.

Lemma list_orders_query_read spage slimit page limit status orders :
  JS.safe_decimal spage = Some page → JS.safe_decimal slimit = Some limit →
  list_orders_query (Some spage) (Some slimit) status orders =
    Some (list_orders (Some page) (Some limit) status orders).
Proof.
  intros Hp Hl. unfold list_orders_query, query_integer. by rewrite Hp, Hl.
Qed.

(** C2.  For a page and a limit that are positive safe integers, each
    spelled in decimal digits in the query, list answers with the window
    of the filtered collection that starts at index (page - 1) * limit and
    holds at most limit orders: element i of the answer is element
    (page - 1) * limit + i of the filtered collection for i below limit,
    and nothing beyond; a page that starts at or past the end is empty,
    and still an answer.  The pagination echoes page and limit as
    integers, total is the length of the filtered collection, and pages is
    the least integer whose multiple of limit reaches total, that is
    ceil (total / limit). *)
Theorem list_orders_page spage slimit (page limit : Z) status orders :
  (0 < page ≤ 2 ^ 53 - 1)%Z → (0 < limit ≤ 2 ^ 53 - 1)%Z →
  JS.safe_decimal spage = Some page → JS.safe_decimal slimit = Some limit →
  let filtered := filter_by_status status orders in
  let start := Z.to_nat ((page - 1) * limit) in
  ∃ paginated pages,
    list_orders_query (Some spage) (Some slimit) status orders =
      Some (OrderList 200 paginated
              {| Pagination.page := page;
                 Pagination.limit := limit;
                 Pagination.total := length filtered;
                 Pagination.pages := Some pages |},
            orders) ∧
    paginated = take (Z.to_nat limit) (drop start filtered) ∧
    (∀ i : nat,
       paginated !! i =
       if decide (Z.of_nat i < limit)%Z then filtered !! (start + i)%nat
       else None) ∧
    ((length filtered ≤ start)%nat → paginated = []) ∧
    ((pages - 1) * limit < Z.of_nat (length filtered) ≤ pages * limit)%Z.
Proof.
  intros [Hp _] [Hl _] Hsp Hsl filtered start.
  destruct (JS.ceil_div (Z.of_nat (length filtered)) limit) as [pages|] eqn:Hc.
  2: { unfold JS.ceil_div in Hc. destruct (Z.eqb_spec limit 0); [lia|done]. }
  exists (take (Z.to_nat limit) (drop start filtered)), pages.
  assert (JS.slice ((page - 1) * limit) (page * limit) filtered =
          take (Z.to_nat limit) (drop start filtered)) as Hslice.
  { replace (page * limit)%Z with ((page - 1) * limit + limit)%Z by lia.
    apply slice_window; nia. }
  split_and!.
  - rewrite (list_orders_query_read _ _ _ _ _ _ Hsp Hsl). f_equal.
    unfold list_orders. cbn [from_option]. unfold id. fold filtered.
    by rewrite Hslice, Hc.
  - done.
  - intros i. case_decide.
    + rewrite lookup_take_lt by lia. apply lookup_drop.
    + apply lookup_take_ge; lia.
  - intros Hge. rewrite drop_ge by done. apply take_nil.
  - apply ceil_div_spec in Hc; lia.
  - apply ceil_div_spec in Hc; lia.
Qed.

(** C5, as amended.  The answer of list is a window of the filtered
    collection, in insertion order, and total is the length of the filtered
    collection.  For a status filter that is a string other than the empty
    one, the filtered collection is made of exactly the orders whose stored
    status equals that string, so every order of the answer has that
    status and total counts those orders.  For a filter that is absent, or
    any other value that is not truthy, the empty string among them, the
    filtered collection is the whole collection. *)
Theorem list_orders_filter page limit status orders :
  ∃ paginated pg,
    list_orders page limit status orders = (OrderList 200 paginated pg, orders) ∧
    paginated =
      JS.slice ((default 1 page - 1) * default 10 limit)%Z
        (default 1 page * default 10 limit)%Z (filter_by_status status orders) ∧
    Pagination.total pg = length (filter_by_status status orders) ∧
    paginated `sublist_of` orders ∧
    (∀ s, status = VStr s → s ≠ "" →
       filter_by_status status orders = filter (λ o, Order.status o = s) orders ∧
       Forall (λ o, Order.status o = s) paginated) ∧
    (JS.truthy status = false → filter_by_status status orders = orders).
Proof.
  eexists _, _. split; [reflexivity|]. cbn [Pagination.total].
  split_and!; try done.
  - etrans; [apply slice_sublist|apply filter_by_status_sublist].
  - intros s -> Hs. split; [by apply filter_by_status_string|].
    apply Forall_forall. intros o Ho.
    eapply elem_of_sublist in Ho; [|apply slice_sublist].
    rewrite filter_by_status_string in Ho by done.
    by apply list_elem_of_filter in Ho as [? _].
  - apply filter_by_status_falsy.
Qed.

(** C10.  The two reads leave the collection as it was: the array after
    list, and after getById whether it finds the order or answers 404, is
    the array before. *)
Theorem reads_leave_orders page limit status rid orders :
  (list_orders page limit status orders).2 = orders ∧
  (get_order rid orders).2 = orders.
Proof.
  split; [done|]. unfold get_order. by destruct (JS.find _ orders).
Qed.

(** ** Creation of a valid order *)



(** ** Status updates *)

Lemma includes_spec l v :
  JS.includes l v = true ↔ ∃ s, v = VStr s ∧ s ∈ l.
Proof.
  unfold JS.includes. rewrite existsb_exists. split.
  - intros (s & Hin & Heq). destruct v; try discriminate.
    apply String.eqb_eq in Heq as <-. exists s. by rewrite list_elem_of_In.
  - intros (s & -> & Hin). exists s. rewrite <- list_elem_of_In.
    split; [done|]. apply String.eqb_refl.
Qed.

Lemma known_status_valid s : known_status s ↔ s ∈ validStatuses.
Proof.
  unfold known_status, validStatuses.
  rewrite !elem_of_cons, elem_of_nil. tauto.
Qed.

Lemma includes_validStatuses status :
  JS.includes validStatuses status = true ↔
  ∃ s, status = VStr s ∧ known_status s.
Proof.
  rewrite includes_spec. by setoid_rewrite known_status_valid.
Qed.

Lemma update_status_invalid now rid status orders :
  JS.includes validStatuses status = false →
  update_status now rid status orders =
    (InvalidStatus 400 "Invalid status" validStatuses, orders).
Proof. intros H. unfold update_status. by rewrite H. Qed.

Lemma update_status_valid now rid s orders :
  known_status s →
  update_status now rid (VStr s) orders =
    match list_find (λ o, Order.id o = rid) orders with
    | Some (orderIndex, o) =>
        (OrderJson 200 (set_updatedAt now (set_status s o)),
         <[orderIndex := set_updatedAt now (set_status s o)]> orders)
    | None => (ErrorJson 404 "Order not found", orders)
    end.
Proof.
  intros H. unfold update_status.
  rewrite (proj2 (includes_validStatuses (VStr s))) by eauto.
  cbn [negb]. by destruct (list_find _ orders) as [[??]|].
Qed.

(** C3, as amended.  A status that is not one of the five is answered
    with 400, the error Invalid status and the list of the five valid
    values, whether or not an order has the id, and the store is left as it
    was; the answer does not carry the rejected value.  A valid status for
    an id that no order has is answered with 404. *)
Theorem update_status_validates_first now rid status orders :
  ((∀ s, status = VStr s → ¬ known_status s) →
     update_status now rid status orders =
       (InvalidStatus 400 "Invalid status"
          ["pending"; "processing"; "shipped"; "delivered"; "cancelled"],
        orders)) ∧
  (∀ s, status = VStr s → known_status s → absent rid orders →
     update_status now rid status orders =
       (ErrorJson 404 "Order not found", orders)).
Proof.
  split.
  - intros Hbad. apply update_status_invalid.
    destruct (JS.includes validStatuses status) eqn:Hi; [|done].
    apply includes_validStatuses in Hi as (s & -> & Hs). by destruct (Hbad s).
  - intros s -> Hs Ha. rewrite update_status_valid by done.
    by rewrite (proj2 (list_find_None _ _) Ha).
Qed.

(** C8.  A status update that succeeds answers with the updated order,
    which differs from the targeted one in its status and its updatedAt
    only, and which takes its place in the collection; every other order
    of the collection is unchanged. *)
Theorem update_status_frame now rid s orders i o :
  known_status s →
  JS.findIndex (λ o', Order.id o' = rid) orders = Some i →
  orders !! i = Some o →
  ∃ o' orders',
    update_status now rid (VStr s) orders = (OrderJson 200 o', orders') ∧
    Order.status o' = s ∧
    Order.updatedAt o' = now ∧
    Order.id o' = Order.id o ∧
    customerId (Order.value o') = customerId (Order.value o) ∧
    items (Order.value o') = items (Order.value o) ∧
    shippingAddress (Order.value o') = shippingAddress (Order.value o) ∧
    Order.total o' = Order.total o ∧
    Order.createdAt o' = Order.createdAt o ∧
    orders' !! i = Some o' ∧
    length orders' = length orders ∧
    (∀ j, j ≠ i → orders' !! j = orders !! j).
Proof.
  intros Hs Hi Ho. rewrite update_status_valid by done.
  unfold JS.findIndex in Hi. apply fmap_Some in Hi as ([i' x] & Hf & ->).
  rewrite Hf. apply list_find_Some in Hf as (Hx & _ & _). cbn in Ho.
  assert (x = o) as -> by congruence.
  eexists _, _. split; [reflexivity|]. split_and!; try reflexivity.
  - apply list_lookup_insert_eq. by eapply lookup_lt_Some.
  - apply length_insert.
  - intros j Hj. by apply list_lookup_insert_ne.
Qed.

(** ** Invariants of the store *)

Lemma run_snoc rs r orders :
  run (rs ++ [r]) orders = (handle r (run rs orders)).2.
Proof. unfold run. by rewrite foldl_app. Qed.

Lemma create_cases uuid now1 now2 body orders :
  (create uuid now1 now2 body orders).2 = orders ∨
  ∃ v, (create uuid now1 now2 body orders).2 =
         orders ++ [{| Order.id := uuid;
                       Order.value := v;
                       Order.status := "pending";
                       Order.total := items_total (items v);
                       Order.createdAt := now1;
                       Order.updatedAt := now2 |}].
Proof.
  unfold create. destruct (validate orderSchema body); [|by left].
  destruct (read_value body) as [v|]; [right; by exists v|by left].
Qed.

Lemma update_status_cases now rid status orders :
  (update_status now rid status orders).2 = orders ∨
  ∃ s i o, known_status s ∧ orders !! i = Some o ∧ Order.id o = rid ∧
    (update_status now rid status orders).2 =
      <[i := set_updatedAt now (set_status s o)]> orders.
Proof.
  destruct (JS.includes validStatuses status) eqn:Hi.
  - apply includes_validStatuses in Hi as (s & -> & Hs).
    rewrite update_status_valid by done.
    destruct (list_find _ orders) as [[i o]|] eqn:Hf; [|by left].
    apply list_find_Some in Hf as (Ho & Hid & _).
    right. by exists s, i, o.
  - left. by rewrite update_status_invalid.
Qed.

Lemma delete_order_cases rid orders :
  (delete_order rid orders).2 = orders ∨
  ∃ i, (delete_order rid orders).2 = delete i orders.
Proof.
  unfold delete_order. destruct (JS.findIndex _ orders) as [i|]; [|by left].
  right. by exists i.
Qed.

Lemma handle_preserves (P : order → Prop) r orders :
  (∀ s o, known_status s → P o → P (set_status s o)) →
  (∀ t o, P o → P (set_updatedAt t o)) →
  (∀ uuid now1 now2 body val,
     r = POST_orders uuid now1 now2 body →
     P {| Order.id := uuid; Order.value := val; Order.status := "pending";
          Order.total := items_total (items val);
          Order.createdAt := now1; Order.updatedAt := now2 |}) →
  Forall P orders → Forall P (handle r orders).2.
Proof.
  intros Hs Ht Hc HP. destruct r as [uuid now1 now2 body| | |now rid status|rid];
    cbn [handle].
  - destruct (create_cases uuid now1 now2 body orders) as [->|[v ->]]; [done|].
    apply Forall_app. split; [done|]. constructor; [|done].
    by eapply Hc.
  - done.
  - unfold get_order. by destruct (JS.find _ orders).
  - destruct (update_status_cases now rid status orders)
      as [->|(s & i & o & Hk & Ho & _ & ->)]; [done|].
    apply Forall_insert; [done|]. apply Ht, Hs; [done|].
    by eapply Forall_lookup_1.
  - destruct (delete_order_cases rid orders) as [->|[i ->]]; [done|].
    by apply Forall_delete.
Qed.

(** C9.  After any sequence of requests on the empty store, every stored
    order has one of the five statuses. *)
Theorem stored_status_known rs :
  Forall (λ o, known_status (Order.status o)) (run rs []).
Proof.
  induction rs as [|r rs IH] using rev_ind; [constructor|].
  rewrite run_snoc. apply handle_preserves; try done.
  intros. unfold known_status. cbn. auto.
Qed.

(** The ids stay pairwise distinct as long as every generated id is new
    to the store. *)
Lemma handle_keeps_unique_ids r orders :
  (∀ uuid now1 now2 body,
     r = POST_orders uuid now1 now2 body → absent uuid orders) →
  unique_ids orders → unique_ids (handle r orders).2.
Proof.
  unfold unique_ids. intros Hfresh Hd.
  destruct r as [uuid now1 now2 body| | |now rid status|rid]; cbn [handle].
  - destruct (create_cases uuid now1 now2 body orders) as [->|[v ->]]; [done|].
    rewrite fmap_app. cbn. apply NoDup_app. split_and!; [done| |apply NoDup_singleton].
    intros x Hx ->%list_elem_of_singleton.
    apply list_elem_of_fmap in Hx as (o & Ho & Hin).
    specialize (Hfresh _ _ _ _ eq_refl).
    by eapply (Forall_forall (λ o, Order.id o ≠ uuid)) in Hin.
  - done.
  - unfold get_order. by destruct (JS.find _ orders).
  - destruct (update_status_cases now rid status orders)
      as [->|(s & i & o & _ & Ho & _ & ->)]; [done|].
    rewrite list_fmap_insert. cbn.
    rewrite list_insert_id; [done|]. by rewrite list_lookup_fmap, Ho.
  - destruct (delete_order_cases rid orders) as [->|[i ->]]; [done|].
    rewrite list_fmap_delete. eapply sublist_NoDup; [done|]. apply sublist_delete.
Qed.

Lemma run_unique_ids rs orders :
  fresh_uuids rs orders → unique_ids orders → unique_ids (run rs orders).
Proof.
  revert orders. induction rs as [|r rs IH]; intros orders Hf Hu; [done|].
  destruct Hf as [Hr Hf]. apply (IH _ Hf). by apply handle_keeps_unique_ids.
Qed.

(** ** Deletion *)

Lemma filter_all {A} (P : A → Prop) `{∀ x, Decision (P x)} (l : list A) :
  Forall P l → filter P l = l.
Proof.
  induction 1 as [|x l Hx _ IH]; [done|]. by rewrite filter_cons_True, IH.
Qed.

Lemma delete_unique_id (orders : list order) i o :
  unique_ids orders → orders !! i = Some o →
  delete i orders = filter (λ o', Order.id o' ≠ Order.id o) orders.
Proof.
  unfold unique_ids. revert i.
  induction orders as [|x orders IH]; intros i Hd Hi; [done|].
  rewrite fmap_cons in Hd. apply NoDup_cons in Hd as [Hx Hd].
  destruct i as [|i]; cbn in Hi.
  - injection Hi as ->. rewrite filter_cons_False by (intros ?; done).
    cbn. symmetry. apply filter_all, Forall_forall. intros o' Ho' Heq.
    apply Hx. rewrite <- Heq. by apply list_elem_of_fmap_2.
  - rewrite filter_cons_True.
    + cbn. f_equal. by apply IH.
    + intros Heq. apply Hx. rewrite Heq.
      apply list_elem_of_fmap_2. by eapply list_elem_of_lookup_2.
Qed.

Lemma unique_id_lookup (orders : list order) i o o' :
  unique_ids orders → orders !! i = Some o' → o ∈ orders →
  Order.id o' = Order.id o → o' = o.
Proof.
  intros Hd Hi [j Hj]%list_elem_of_lookup_1 Heq.
  assert (i = j) as ->; [|congruence].
  eapply (NoDup_lookup _ _ _ (Order.id o) Hd);
    rewrite list_lookup_fmap; [rewrite Hi; cbn; by rewrite Heq|by rewrite Hj].
Qed.

Lemma absent_not_found rid orders :
  absent rid orders →
  delete_order rid orders = (ErrorJson 404 "Order not found", orders) ∧
  get_order rid orders = (ErrorJson 404 "Order not found", orders).
Proof.
  intros Ha. unfold delete_order, get_order.
  rewrite (proj2 (findIndex_None _ _) Ha), (proj2 (find_None _ _) Ha). done.
Qed.

Lemma handle_keeps_absent rid r orders :
  (∀ now1 now2 body, r ≠ POST_orders rid now1 now2 body) →
  absent rid orders → absent rid (handle r orders).2.
Proof.
  intros Hr. apply handle_preserves; try done.
  intros uuid now1 now2 body val -> Heq. cbn in Heq. subst. by eapply Hr.
Qed.

Lemma run_keeps_absent rid rs orders :
  Forall (λ r, ∀ now1 now2 body, r ≠ POST_orders rid now1 now2 body) rs →
  absent rid orders → absent rid (run rs orders).
Proof.
  intros Hrs Ha. induction rs as [|r rs IH] using rev_ind; [done|].
  apply Forall_app in Hrs as [Hrs Hr%Forall_inv].
  rewrite run_snoc. apply handle_keeps_absent; auto.
Qed.

(** C7.  In a store whose ids are pairwise distinct, deleting the id of
    a stored order answers with that order and leaves the collection
    without it and otherwise as it was.  From then on a second delete and
    every getById of that id answer 404, also after any further requests
    that do not create an order with the same id again. *)
Theorem delete_order_removes rid o orders :
  unique_ids orders → o ∈ orders → Order.id o = rid →
  ∃ rest,
    delete_order rid orders =
      (Deleted 200 "Order deleted successfully" (Some o), rest) ∧
    rest = filter (λ o', Order.id o' ≠ rid) orders ∧
    S (length rest) = length orders ∧
    (o ∉ rest) ∧
    delete_order rid rest = (ErrorJson 404 "Order not found", rest) ∧
    get_order rid rest = (ErrorJson 404 "Order not found", rest) ∧
    (∀ rs,
       Forall (λ r, ∀ now1 now2 body, r ≠ POST_orders rid now1 now2 body) rs →
       get_order rid (run rs rest) =
         (ErrorJson 404 "Order not found", run rs rest)).
Proof.
  intros Hd Ho Hid.
  destruct (list_find_elem_of (λ o', Order.id o' = rid) orders o Ho Hid)
    as [[i o'] Hf].
  pose proof Hf as (Hi & Hid' & _)%list_find_Some.
  assert (o' = o) as -> by (eapply unique_id_lookup; eauto; congruence).
  exists (delete i orders).
  assert (delete i orders = filter (λ o', Order.id o' ≠ rid) orders) as Hrest.
  { rewrite <- Hid. by apply delete_unique_id. }
  assert (absent rid (delete i orders)) as Ha.
  { rewrite Hrest. apply Forall_forall. by intros x [? _]%list_elem_of_filter. }
  split_and!.
  - unfold delete_order, JS.findIndex. rewrite Hf. cbn [fmap option_fmap option_map fst].
    by rewrite (splice1_lookup _ _ _ Hi).
  - done.
  - rewrite length_delete by eauto. apply lookup_lt_Some in Hi. lia.
  - rewrite Hrest. intros [Hne _]%list_elem_of_filter. done.
  - by apply absent_not_found.
  - by apply absent_not_found.
  - intros rs Hrs. apply absent_not_found. by apply run_keeps_absent.
Qed.

(** * Further properties of the handlers *)

(** ** Creation *)

Lemma valid_string_nonempty b p path s :
  validate_at b (JString p) path (VStr s) = [] → s ≠ "".
Proof.
  cbn. destruct (String.eqb_spec s ""); [discriminate|done].
Qed.

Lemma check_number_rules b rules path n :
  check_number b rules path n = [] →
  Forall (λ r, check_rule path n r = []) rules.
Proof.
  unfold check_number. repeat case_match; try discriminate.
  induction rules as [|r rules IH]; [constructor|]. cbn [foldr].
  intros [Hr Hrest]%and_then_nil. constructor; auto.
Qed.

Lemma valid_number_rules b rules p path v n :
  validate_at b (JNumber rules p) path v = [] → number_value v = Some n →
  Forall (λ r, check_rule path n r = []) rules.
Proof.
  destruct v as [| | |m|s| |]; cbn; try discriminate.
  - intros Hv [= <-]. by eapply check_number_rules.
  - destruct (coerce_number s); try discriminate.
    intros Hv [= <-]. by eapply check_number_rules.
Qed.

Lemma valid_item_well_formed b path x it :
  validate_at b itemSchema path x = [] → read_item x = Some it →
  well_formed_item it.
Proof.
  intros Hv Hr. destruct x as [| | | | | |props]; try discriminate.
  unfold itemSchema in Hv. rewrite validate_at_object in Hv.
  cbn [validate_keys] in Hv. split_checks.
  unfold read_item in Hr.
  destruct (get "productId" props) as [| | | |pid| |] eqn:Hp;
    try discriminate.
  destruct (number_value (get "quantity" props)) as [q|] eqn:Hq;
    [|discriminate].
  destruct (number_value (get "price" props)) as [pr|] eqn:Hpr;
    [|discriminate].
  injection Hr as <-.
  repeat match goal with
  | H : validate_at _ (JNumber _ _) _ _ = [] |- _ =>
      eapply valid_number_rules in H; [|eassumption]
  end.
  unfold well_formed_item. cbn [productId quantity price].
  split; [by eapply valid_string_nonempty|].
  repeat match goal with
  | H : Forall _ (_ :: _) |- _ => apply Forall_cons in H as [? H]
  end.
  unfold check_rule in *. repeat case_match; try discriminate. all: done.
Qed.

Lemma valid_items_well_formed b path i elems its :
  validate_items b (validate_at b) itemSchema path i elems = [] →
  mapM read_item elems = Some its → Forall well_formed_item its.
Proof.
  revert i its. induction elems as [|x elems IH]; intros i its Hv Hr.
  - injection Hr as <-. constructor.
  - cbn [validate_items] in Hv. apply and_then_nil in Hv as [Hx Hv].
    cbn in Hr. destruct (read_item x) as [it|] eqn:Hit; [|discriminate].
    cbn in Hr. destruct (mapM read_item elems) as [its'|] eqn:Hits;
      [|discriminate].
    injection Hr as <-. constructor; [|by eapply IH].
    eapply valid_item_well_formed; [|done]. by destruct x.
Qed.

Lemma valid_value_well_formed b body v :
  validate_at b orderSchema "" body = [] → read_value body = Some v →
  well_formed_value v.
Proof.
  intros Hv Hr. destruct body as [| | | | | |props]; try discriminate.
  unfold orderSchema in Hv. rewrite validate_at_object in Hv.
  cbn [validate_keys] in Hv. split_checks.
  unfold read_value in Hr.
  destruct (get "customerId" props) as [| | | |c| |] eqn:Hc;
    try discriminate.
  destruct (get "items" props) as [| | | | |elems|] eqn:Hi;
    try discriminate.
  destruct (mapM read_item elems) as [its|] eqn:Hits; [|discriminate].
  destruct (read_address _) as [a|] eqn:Ha; [|discriminate].
  injection Hr as <-.
  match goal with
  | H : validate_at _ (JArray _ _ _) _ _ = [] |- _ =>
      rewrite validate_at_array in H; apply and_then_nil in H as [Hel Hmin]
  end.
  match goal with
  | H : validate_at _ (JObject _ _) _ _ = [] |- _ => rename H into Haddr
  end.
  unfold well_formed_value.
  cbn [customerId items shippingAddress].
  split; [by eapply valid_string_nonempty|].
  split. { destruct elems; [discriminate|]. cbn in Hits.
           destruct (read_item _); [|discriminate]. cbn in Hits.
           destruct (mapM _ _); [|discriminate]. by injection Hits as <-. }
  split; [by eapply valid_items_well_formed|].
  destruct (get "shippingAddress" props) as [| | | | | |aprops];
    try discriminate.
  rewrite validate_at_object in Haddr. cbn [validate_keys] in Haddr.
  split_checks. unfold read_address in Ha.
  destruct (get "street" aprops); try discriminate.
  destruct (get "city" aprops); try discriminate.
  destruct (get "zipCode" aprops); try discriminate.
  destruct (get "country" aprops); try discriminate.
  injection Ha as <-. cbn [street city zipCode country].
  split_and!; by eapply valid_string_nonempty.
Qed.

(** The three outcomes of a creation. *)
Lemma create_outcome uuid now1 now2 body orders :
  (violations orderSchema body ≠ [] ∧
   create uuid now1 now2 body orders =
     (ValidationFailed 400 "Validation failed"
        (take 1 (violations orderSchema body)), orders))
  ∨ (body = VUndefined ∧
     create uuid now1 now2 body orders =
       (ErrorJson 500 "Failed to create order", orders))
  ∨ (∃ v, body ≠ VUndefined ∧ violations orderSchema body = [] ∧
       read_value body = Some v ∧
       create uuid now1 now2 body orders =
         (OrderJson 201
            {| Order.id := uuid; Order.value := v; Order.status := "pending";
               Order.total := items_total (items v);
               Order.createdAt := now1; Order.updatedAt := now2 |},
          orders ++
          [{| Order.id := uuid; Order.value := v; Order.status := "pending";
              Order.total := items_total (items v);
              Order.createdAt := now1; Order.updatedAt := now2 |}])).
Proof.
  destruct (violations orderSchema body) as [|m rest] eqn:Hv.
  - right. destruct body as [| | | | | |props].
    { left. by split. }
    all: right;
      match goal with |- context [read_value ?b] =>
        destruct (valid_value false b ltac:(discriminate) Hv) as [v Hr];
        exists v; split_and!; [discriminate|done|done|];
        unfold create; apply validate_nil in Hv; by rewrite Hv, Hr
      end.
  - left. split; [discriminate|]. rewrite <- Hv. apply create_invalid.
    rewrite Hv. discriminate.
Qed.

(** X1.  A creation is answered with 500 exactly when the request has no
    body: the schema lets undefined pass, and reading the items of the
    value throws.  The store is then left as it was. *)
Theorem create_fails_only_without_body uuid now1 now2 body orders :
  ((create uuid now1 now2 body orders).1 =
     ErrorJson 500 "Failed to create order" ↔ body = VUndefined) ∧
  (body = VUndefined → (create uuid now1 now2 body orders).2 = orders).
Proof.
  destruct (create_outcome uuid now1 now2 body orders)
    as [[Hv ->]|[[-> ->]|(v & Hb & _ & _ & ->)]]; cbn [fst snd].
  - split; [|done]. split; [discriminate|]. intros ->. by destruct Hv.
  - done.
  - split; [|done]. split; [discriminate|done].
Qed.

(** X2.  A creation either answers 201 with an order that has the
    generated id and the status pending, and appends that order after the
    stored ones, or it answers otherwise and leaves the store as it was. *)
Theorem create_adds_at_most_one uuid now1 now2 body orders :
  (∃ o, create uuid now1 now2 body orders = (OrderJson 201 o, orders ++ [o]) ∧
        Order.id o = uuid ∧ Order.status o = "pending")
  ∨ ((∀ o, (create uuid now1 now2 body orders).1 ≠ OrderJson 201 o) ∧
     (create uuid now1 now2 body orders).2 = orders).
Proof.
  destruct (create_outcome uuid now1 now2 body orders)
    as [[_ ->]|[[-> ->]|(v & Hb & _ & _ & ->)]]; cbn [fst snd].
  - right. by split.
  - right. by split.
  - left. eexists. by split_and!.
Qed.

(** X3.  A body with a property beyond customerId, items and
    shippingAddress, other than a property named __proto__, which the
    validated copy of the body does not keep, is answered with the
    validation error and leaves the store as it was: a request cannot set
    the id, the status, the total or a timestamp of its order. *)
Theorem create_rejects_unknown_key uuid now1 now2 props k orders :
  k ∈ JS.keys props →
  k ∉ ["customerId"; "items"; "shippingAddress"; "__proto__"] →
  ∃ details, details ≠ [] ∧
    create uuid now1 now2 (VObj props) orders =
      (ValidationFailed 400 "Validation failed" details, orders).
Proof.
  intros Hk Hnot.
  assert (violations orderSchema (VObj props) ≠ []) as Hv.
  { intros Hv. apply valid_value_keys in Hv.
    assert (k ∈ JS.keys (copied props)) as Hc.
    { apply copied_keys. split; [done|]. intros ->. apply Hnot.
      rewrite !elem_of_cons. auto. }
    eapply (Forall_forall (λ k, k ∈ _)) in Hv; [|exact Hc].
    apply Hnot. rewrite !elem_of_cons in Hv. rewrite !elem_of_cons.
    rewrite elem_of_nil in Hv. tauto. }
  exists (take 1 (violations orderSchema (VObj props))). split.
  - by destruct (violations orderSchema (VObj props)).
  - by apply create_invalid.
Qed.

(** X4.  An order that a creation answers with holds what validation has
    read in the body: its customer, one item for each element of its items
    and in their order, and its address, each of them the property of that
    name of the body or, where the body has none, of the object that the
    body holds under __proto__; for a body without a property named
    __proto__ these are the properties of the body itself.  The fields of
    the order are well formed. *)
Theorem created_order_mirrors_body uuid now1 now2 body orders o :
  (create uuid now1 now2 body orders).1 = OrderJson 201 o →
  ∃ props elems,
    body = VObj props ∧
    get "customerId" props = VStr (customerId (Order.value o)) ∧
    get "items" props = VArr elems ∧
    Forall2 (λ x it, read_item x = Some it) elems (items (Order.value o)) ∧
    read_address (get "shippingAddress" props) =
      Some (shippingAddress (Order.value o)) ∧
    ("__proto__" ∉ JS.keys props →
       JS.prop "customerId" props = VStr (customerId (Order.value o)) ∧
       JS.prop "items" props = VArr elems) ∧
    well_formed_value (Order.value o).
Proof.
  destruct (create_outcome uuid now1 now2 body orders)
    as [[_ ->]|[[-> ->]|(v & Hb & Hv & Hr & ->)]]; cbn [fst]; try discriminate.
  intros [= <-]. cbn [Order.value].
  pose proof (valid_value_well_formed false body v Hv Hr) as Hwf.
  destruct body as [| | | | | |props]; try discriminate.
  unfold read_value in Hr.
  destruct (get "customerId" props) as [| | | |c| |] eqn:Hc;
    try discriminate.
  destruct (get "items" props) as [| | | | |elems|] eqn:Hi;
    try discriminate.
  destruct (mapM read_item elems) as [its|] eqn:Hits; [|discriminate].
  destruct (read_address _) as [a|] eqn:Ha; [|discriminate].
  injection Hr as <-. exists props, elems. cbn [customerId items shippingAddress].
  split_and!; try done.
  - by apply mapM_Some.
  - intros Hp. by rewrite <- !(get_plain _ props Hp).
Qed.

Lemma handle_preserves_valid (P : order → Prop) r orders :
  (∀ s o, P o → P (set_status s o)) →
  (∀ t o, P o → P (set_updatedAt t o)) →
  (∀ uuid now1 now2 body v,
     r = POST_orders uuid now1 now2 body →
     violations orderSchema body = [] → read_value body = Some v →
     P {| Order.id := uuid; Order.value := v; Order.status := "pending";
          Order.total := items_total (items v);
          Order.createdAt := now1; Order.updatedAt := now2 |}) →
  Forall P orders → Forall P (handle r orders).2.
Proof.
  intros Hs Ht Hc HP.
  destruct r as [uuid now1 now2 body| | |now rid status|rid]; cbn [handle].
  - destruct (create_outcome uuid now1 now2 body orders)
      as [[_ ->]|[[-> ->]|(v & Hb & Hv & Hr & ->)]]; cbn [snd]; try done.
    apply Forall_app. split; [done|]. constructor; [|done]. by eapply Hc.
  - done.
  - unfold get_order. by destruct (JS.find _ orders).
  - destruct (update_status_cases now rid status orders)
      as [->|(s & i & o & Hk & Ho & _ & ->)]; [done|].
    apply Forall_insert; [done|]. apply Ht, Hs. by eapply Forall_lookup_1.
  - destruct (delete_order_cases rid orders) as [->|[i ->]]; [done|].
    by apply Forall_delete.
Qed.

(** X5.  After any sequence of requests on the empty store every stored
    order has a customer, at least one item and an address whose strings
    are not empty, and every item has an integer quantity from 1 on and a
    price above 0. *)
Theorem stored_orders_well_formed rs :
  Forall (λ o, well_formed_value (Order.value o)) (run rs []).
Proof.
  induction rs as [|r rs IH] using rev_ind; [constructor|].
  rewrite run_snoc. apply handle_preserves_valid; try done.
  intros uuid now1 now2 body v _ Hv Hr. cbn [Order.value].
  by eapply valid_value_well_formed.
Qed.

(** X6.  After any sequence of requests on the empty store the total of
    every stored order is the sum of price times quantity over its items,
    as computed at its creation. *)
Theorem stored_total_is_sum rs :
  Forall (λ o, Order.total o = items_total (items (Order.value o))) (run rs []).
Proof.
  induction rs as [|r rs IH] using rev_ind; [constructor|].
  rewrite run_snoc. by apply handle_preserves_valid.
Qed.

Lemma read_items_lookup elems its x :
  mapM read_item elems = Some its → x ∈ elems →
  ∃ it, read_item x = Some it ∧ it ∈ its.
Proof.
  intros Hm%mapM_Some [i Hi]%list_elem_of_lookup_1.
  destruct (Forall2_lookup_l _ _ _ _ _ Hm Hi) as (it & Hit & Hr).
  exists it. split; [done|]. by eapply list_elem_of_lookup_2.
Qed.

(** X7.  A creation whose body holds an item with a quantity that is not
    an integer or is below 1, or with a price that is not above 0, is
    answered with the validation error and leaves the store as it was. *)
Theorem create_rejects_bad_numbers
    uuid now1 now2 props elems iprops q pr orders :
  JS.prop "items" props = VArr elems →
  VObj iprops ∈ elems →
  number_value (JS.prop "quantity" iprops) = Some q →
  number_value (JS.prop "price" iprops) = Some pr →
  JS.is_integer q = false ∨ PrimFloat.leb (JS.of_nat 1) q = false
    ∨ PrimFloat.ltb PrimFloat.zero pr = false →
  ∃ details, details ≠ [] ∧
    create uuid now1 now2 (VObj props) orders =
      (ValidationFailed 400 "Validation failed" details, orders).
Proof.
  intros Hitems Hin Hq Hpr Hbad.
  assert (violations orderSchema (VObj props) ≠ []) as Hv.
  { intros Hv.
    destruct (valid_value false (VObj props) ltac:(discriminate) Hv) as [v Hr].
    pose proof (valid_value_well_formed false _ v Hv Hr) as (_ & _ & Hwf & _).
    unfold read_value in Hr.
    rewrite (get_own "items"), Hitems in Hr by (by rewrite Hitems).
    destruct (get "customerId" props); try discriminate.
    destruct (mapM read_item elems) as [its|] eqn:Hits; [|discriminate].
    destruct (read_address _); [|discriminate]. injection Hr as <-.
    cbn [items] in Hwf.
    destruct (read_items_lookup _ _ _ Hits Hin) as (it & Hit & Hitin).
    eapply Forall_forall in Hwf as (_ & Hint & Hmin & Hpos); [|exact Hitin].
    unfold read_item in Hit.
    rewrite (get_own "quantity"), (get_own "price"), Hq, Hpr in Hit
      by (intros Hun; by rewrite Hun in *).
    destruct (get "productId" iprops); try discriminate.
    injection Hit as <-. cbn [quantity price] in *.
    destruct Hbad as [?|[?|?]]; congruence. }
  exists (take 1 (violations orderSchema (VObj props))). split.
  - by destruct (violations orderSchema (VObj props)).
  - by apply create_invalid.
Qed.

(** ** Lookup, update and deletion *)

(** X8.  As long as every creation draws an id that is new to the store,
    the ids of the stored orders are pairwise distinct. *)
Theorem ids_stay_unique rs : fresh_uuids rs [] → unique_ids (run rs []).
Proof. intros Hf. apply run_unique_ids; [done|]. apply NoDup_nil_2. Qed.

(** X9.  Every stored order has an id that a creation of the sequence
    drew: no request invents or rewrites an id. *)
Theorem stored_ids_were_drawn rs :
  Forall (λ o, Order.id o ∈ posted_uuids rs) (run rs []).
Proof.
  induction rs as [|r rs IH] using rev_ind; [constructor|].
  rewrite run_snoc. unfold posted_uuids. apply handle_preserves.
  - done.
  - done.
  - intros uuid now1 now2 body val ->. cbn [Order.id].
    rewrite omap_app. apply elem_of_app. right. cbn. apply list_elem_of_singleton. done.
  - eapply Forall_impl; [exact IH|]. intros o Ho. cbn beta.
    rewrite omap_app. apply elem_of_app. by left.
Qed.

Lemma list_find_first {A} (P : A → Prop) `{∀ x, Decision (P x)} l1 x l2 :
  Forall (λ y, ¬ P y) l1 → P x →
  list_find P (l1 ++ x :: l2) = Some (length l1, x).
Proof.
  intros Hl1 Hx. rewrite list_find_app_r by (by apply list_find_None).
  cbn. rewrite decide_True by done. done.
Qed.

Lemma delete_middle {A} (l1 : list A) x l2 :
  delete (length l1) (l1 ++ x :: l2) = l1 ++ l2.
Proof. induction l1 as [|y l1 IH]; [done|]. simpl. by f_equal. Qed.

(** X10.  A deletion removes the first order with the id, answers with
    it, and keeps every other order in its place, later orders with the
    same id among them. *)
Theorem delete_removes_first rid l1 o l2 :
  absent rid l1 → Order.id o = rid →
  delete_order rid (l1 ++ o :: l2) =
    (Deleted 200 "Order deleted successfully" (Some o), l1 ++ l2).
Proof.
  intros Ha Ho. unfold delete_order, JS.findIndex.
  rewrite (list_find_first (λ o', Order.id o' = rid)) by done. cbn [fmap option_fmap option_map fst].
  rewrite (splice1_lookup _ _ o).
  - by rewrite delete_middle.
  - by rewrite list_lookup_middle.
Qed.

(** X11.  A read by id answers with the first order that has the id, and
    leaves the store as it was. *)
Theorem get_returns_first rid l1 o l2 :
  absent rid l1 → Order.id o = rid →
  get_order rid (l1 ++ o :: l2) = (OrderJson 200 o, l1 ++ o :: l2).
Proof.
  intros Ha Ho. unfold get_order, JS.find.
  by rewrite (list_find_first (λ o', Order.id o' = rid)) by done.
Qed.

(** X12.  A read by id and a deletion answer 404 exactly when no stored
    order has the id, and the deletion then leaves the store as it was. *)
Theorem not_found_iff_absent rid orders :
  ((get_order rid orders).1 = ErrorJson 404 "Order not found"
     ↔ absent rid orders) ∧
  ((delete_order rid orders).1 = ErrorJson 404 "Order not found"
     ↔ absent rid orders) ∧
  (absent rid orders → (delete_order rid orders).2 = orders).
Proof.
  unfold absent. split_and!.
  - unfold get_order.
    destruct (JS.find (λ o, Order.id o = rid) orders) as [o|] eqn:Hf; cbn [fst].
    + split; [discriminate|]. intros Ha. apply (find_None (λ o, Order.id o = rid)) in Ha.
      congruence.
    + split; [|done]. intros _. by apply (find_None (λ o, Order.id o = rid)).
  - unfold delete_order.
    destruct (JS.findIndex (λ o, Order.id o = rid) orders) as [i|] eqn:Hf.
    + destruct (JS.splice1 i orders) as [removed rest]. cbn [fst].
      split; [discriminate|]. intros Ha.
      apply (findIndex_None (λ o, Order.id o = rid)) in Ha. congruence.
    + split; [|done]. intros _. by apply (findIndex_None (λ o, Order.id o = rid)).
  - intros Ha. unfold delete_order.
    by rewrite (proj2 (findIndex_None (λ o, Order.id o = rid) _) Ha).
Qed.

(** X13.  In a store whose ids are pairwise distinct, every stored order
    is what a read by its id answers with. *)
Theorem get_finds_stored_order o orders :
  unique_ids orders → o ∈ orders →
  get_order (Order.id o) orders = (OrderJson 200 o, orders).
Proof.
  intros Hd Ho. unfold get_order, JS.find.
  destruct (list_find_elem_of (λ o', Order.id o' = Order.id o) orders o Ho eq_refl)
    as [[i o'] Hf].
  rewrite Hf. cbn [fmap option_fmap option_map snd].
  apply list_find_Some in Hf as (Hi & Hid & _).
  by rewrite (unique_id_lookup orders i o o' Hd Hi Ho Hid).
Qed.

(** X14.  Deleting the id of an order right after its creation, when no
    older order has that id, answers with that order and gives back the
    store of before the creation. *)
Theorem create_then_delete uuid now1 now2 body orders :
  absent uuid orders → body ≠ VUndefined → violations orderSchema body = [] →
  ∃ o,
    create uuid now1 now2 body orders = (OrderJson 201 o, orders ++ [o]) ∧
    delete_order uuid (orders ++ [o]) =
      (Deleted 200 "Order deleted successfully" (Some o), orders).
Proof.
  intros Ha Hb Hv. destruct (valid_value false body Hb Hv) as [v Hr].
  eexists. split.
  - unfold create. apply validate_nil in Hv. by rewrite Hv, Hr.
  - unfold delete_order, JS.findIndex.
    rewrite (list_find_first (λ o', Order.id o' = uuid)) by done.
    cbn [fmap option_fmap option_map fst].
    rewrite (splice1_lookup _ _ _ (list_lookup_middle _ _ _ _ eq_refl)).
    by rewrite delete_middle, app_nil_r.
Qed.

Lemma update_twice o s1 s2 now1 now2 :
  set_updatedAt now2 (set_status s2 (set_updatedAt now1 (set_status s1 o))) =
  set_updatedAt now2 (set_status s2 o).
Proof. reflexivity. Qed.

(** X15.  Of two status updates of the same id in a row the second
    wins: the response and the store are those of the second update
    alone. *)
Theorem last_update_wins now1 now2 rid s1 s2 orders :
  known_status s1 → known_status s2 →
  update_status now2 rid (VStr s2)
    (update_status now1 rid (VStr s1) orders).2 =
  update_status now2 rid (VStr s2) orders.
Proof.
  intros H1 H2. rewrite !update_status_valid by done.
  destruct (list_find (λ o, Order.id o = rid) orders) as [[i o]|] eqn:Hf;
    cbn [snd].
  - pose proof Hf as (Hi & Hid & Hfirst)%list_find_Some.
    assert (list_find (λ o, Order.id o = rid)
              (<[i := set_updatedAt now1 (set_status s1 o)]> orders) =
            Some (i, set_updatedAt now1 (set_status s1 o))) as ->.
    { apply list_find_Some. split_and!.
      - apply list_lookup_insert_eq. by eapply lookup_lt_Some.
      - done.
      - intros j y Hj Hlt. rewrite list_lookup_insert_ne in Hj by lia.
        by eapply Hfirst. }
    by rewrite update_twice, list_insert_insert_eq.
  - by rewrite Hf.
Qed.

(** X16.  After a status update that finds its order, a read of the id
    answers with the updated order: the new status and the new updatedAt. *)
Theorem update_then_get now rid s orders i :
  known_status s →
  JS.findIndex (λ o, Order.id o = rid) orders = Some i →
  ∃ o' orders',
    update_status now rid (VStr s) orders = (OrderJson 200 o', orders') ∧
    Order.status o' = s ∧ Order.updatedAt o' = now ∧
    get_order rid orders' = (OrderJson 200 o', orders').
Proof.
  intros Hs Hi. rewrite update_status_valid by done.
  unfold JS.findIndex in Hi. apply fmap_Some in Hi as ([i' o] & Hf & ->).
  rewrite Hf. cbn [fst].
  pose proof Hf as (Hi & Hid & Hfirst)%list_find_Some.
  eexists _, _. split; [reflexivity|]. split_and!; try reflexivity.
  unfold get_order, JS.find.
  assert (list_find (λ o, Order.id o = rid)
            (<[i' := set_updatedAt now (set_status s o)]> orders) =
          Some (i', set_updatedAt now (set_status s o))) as ->; [|done].
  apply list_find_Some. split_and!.
  - apply list_lookup_insert_eq. by eapply lookup_lt_Some.
  - done.
  - intros j y Hj Hlt. rewrite list_lookup_insert_ne in Hj by lia.
    by eapply Hfirst.
Qed.

(** X17.  A status update, whatever its status and id, leaves the number
    and the order of the stored orders, and the id, the fields, the total
    and the createdAt of each of them, as they were. *)
Theorem update_keeps_immutable_part now rid status orders :
  immutable_part <$> (update_status now rid status orders).2 =
  immutable_part <$> orders.
Proof.
  destruct (update_status_cases now rid status orders)
    as [->|(s & i & o & _ & Ho & _ & ->)]; [done|].
  rewrite list_fmap_insert. apply list_insert_id.
  by rewrite list_lookup_fmap, Ho.
Qed.

(** X18.  The store after a sequence of requests is the store after the
    same sequence without its reads. *)
Theorem reads_are_transparent rs orders :
  run rs orders = run (List.filter (λ r, negb (is_read r)) rs) orders.
Proof.
  revert orders. induction rs as [|r rs IH]; intros orders; [done|].
  cbn [List.filter]. destruct r as [uuid now1 now2 body|page limit status|rid|now rid status|rid];
    cbn [is_read negb]; unfold run in *; cbn [foldl]; rewrite ?IH; try done.
  cbn [handle]. f_equal. unfold get_order. by destruct (JS.find _ orders).
Qed.

(** X19.  A creation adds at most one order, a deletion removes exactly
    one when an order has the id and none otherwise, and no other request
    changes the number of orders. *)
Theorem store_size_changes r orders :
  match r with
  | POST_orders _ _ _ _ =>
      length (handle r orders).2 = length orders ∨
      length (handle r orders).2 = S (length orders)
  | DELETE_order rid =>
      (absent rid orders ∧ length (handle r orders).2 = length orders) ∨
      (¬ absent rid orders ∧ S (length (handle r orders).2) = length orders)
  | _ => length (handle r orders).2 = length orders
  end.
Proof.
  destruct r as [uuid now1 now2 body|page limit status|rid|now rid status|rid];
    cbn [handle].
  - destruct (create_cases uuid now1 now2 body orders) as [->|[v ->]];
      [by left|right]. rewrite length_app. cbn. lia.
  - done.
  - unfold get_order. by destruct (JS.find _ orders).
  - destruct (update_status_cases now rid status orders)
      as [->|(s & i & o & _ & Ho & _ & ->)]; [done|]. apply length_insert.
  - unfold delete_order, JS.findIndex, absent.
    destruct (list_find (λ o, Order.id o = rid) orders) as [[i o]|] eqn:Hf;
      cbn [fmap option_fmap option_map fst].
    + right. split.
      { intros Ha. apply (list_find_None (λ o, Order.id o = rid)) in Ha.
        congruence. }
      apply list_find_Some in Hf as (Hi & _ & _).
      rewrite (splice1_lookup _ _ _ Hi). cbn [snd].
      rewrite length_delete by eauto. apply lookup_lt_Some in Hi. lia.
    + left. split; [|done].
      by apply (list_find_None (λ o, Order.id o = rid)).
Qed.

(** ** Listing *)

Lemma listed_list_orders page limit status orders :
  listed (list_orders page limit status orders).1 =
  JS.slice ((default 1 page - 1) * default 10 limit)%Z
    (default 1 page * default 10 limit)%Z (filter_by_status status orders).
Proof. reflexivity. Qed.

Lemma chunks_concat {A} (l : list A) (m n : nat) :
  concat ((λ k, take m (drop (k * m) l)) <$> seq 0 n) = take (n * m) l.
Proof.
  induction n as [|n IH]; [by rewrite take_0|].
  rewrite seq_S, fmap_app, concat_app, IH. cbn [fmap list_fmap concat].
  rewrite app_nil_r, take_take_drop. f_equal. lia.
Qed.

(** X20.  For a positive limit, the pages from 1 to the page count that
    the pagination reports, one after the other, are the filtered
    collection: every order is on exactly one page. *)
Theorem pages_cover limit status orders paginated pg pages :
  (0 < limit)%Z →
  list_orders (Some 1%Z) (Some limit) status orders =
    (OrderList 200 paginated pg, orders) →
  Pagination.pages pg = Some pages →
  concat ((λ k : nat,
             listed (list_orders (Some (Z.of_nat (S k))) (Some limit)
                       status orders).1)
          <$> seq 0 (Z.to_nat pages)) =
  filter_by_status status orders.
Proof.
  intros Hl Hr Hp. injection Hr as _ <-. cbn [Pagination.pages] in Hp.
  cbn [from_option] in Hp. unfold id in Hp.
  apply ceil_div_spec in Hp; [|done].
  set (filtered := filter_by_status status orders) in *.
  erewrite list_fmap_ext.
  - rewrite (chunks_concat filtered (Z.to_nat limit)). apply take_ge. nia.
  - intros _ k _. rewrite listed_list_orders. cbn [from_option]. unfold id.
    fold filtered.
    replace (Z.of_nat (S k) * limit)%Z
      with ((Z.of_nat (S k) - 1) * limit + limit)%Z by lia.
    rewrite slice_window by nia. f_equal. f_equal. nia.
Qed.

(** X21.  For a limit that is not negative a page holds at most limit
    orders, whatever the page number, zero and negative ones included. *)
Theorem page_holds_at_most_limit page limit status orders :
  (0 ≤ default 10%Z limit)%Z →
  (length (listed (list_orders page limit status orders).1) ≤
     Z.to_nat (default 10%Z limit))%nat.
Proof.
  intros Hl. rewrite listed_list_orders.
  set (p := default 1%Z page) in *. set (m := default 10%Z limit) in *.
  unfold JS.slice, JS.relative_index. rewrite length_take.
  repeat case_match; nia.
Qed.

(** X22.  Page 0, and any page with limit 0, is an empty list and not an
    error; total is still the number of filtered orders, and with limit 0
    the page count is not a number (null in the body). *)
Theorem zero_page_or_limit_lists_nothing page limit status orders :
  default 1%Z page = 0%Z ∧ (0 ≤ default 10%Z limit)%Z ∨ default 10%Z limit = 0%Z →
  ∃ pg,
    list_orders page limit status orders = (OrderList 200 [] pg, orders) ∧
    Pagination.total pg = length (filter_by_status status orders) ∧
    (default 10%Z limit = 0%Z → Pagination.pages pg = None).
Proof.
  intros Hz. eexists. split_and!.
  - unfold list_orders. f_equal. f_equal.
    set (p := default 1%Z page) in *. set (m := default 10%Z limit) in *.
    unfold JS.slice, JS.relative_index.
    apply length_zero_iff_nil. rewrite length_take.
    repeat case_match; nia.
  - done.
  - cbn [Pagination.pages]. intros ->. done.
Qed.

(** X23.  A negative limit is not rejected: with limit -n and no page,
    the list holds all filtered orders but the last n. *)
Theorem negative_limit_drops_last (n : nat) status orders :
  (0 < n)%nat →
  listed (list_orders None (Some (- Z.of_nat n)%Z) status orders).1 =
  take (length (filter_by_status status orders) - n)
    (filter_by_status status orders).
Proof.
  intros Hn. rewrite listed_list_orders. cbn [from_option]. unfold id.
  unfold JS.slice, JS.relative_index.
  replace ((1 - 1) * - Z.of_nat n)%Z with 0%Z by lia.
  replace (1 * - Z.of_nat n)%Z with (- Z.of_nat n)%Z by lia.
  destruct (Z.ltb_spec 0 0); [lia|].
  destruct (Z.ltb_spec (- Z.of_nat n) 0); [|lia].
  rewrite Z.min_l by lia. rewrite drop_0. f_equal. lia.
Qed.

(** X24.  A status filter that is truthy and not a string, as an array
    or an object of the query string is, matches no order: the list is
    empty and total is 0. *)
Theorem other_filter_values_match_nothing page limit status orders :
  JS.truthy status = true → (∀ s, status ≠ VStr s) →
  ∃ pg,
    list_orders page limit status orders = (OrderList 200 [] pg, orders) ∧
    Pagination.total pg = 0%nat.
Proof.
  intros Ht Hs.
  assert (filter_by_status status orders = []) as Hf.
  { unfold filter_by_status. rewrite Ht.
    induction orders as [|o orders IH]; [done|]. cbn [List.filter].
    destruct status; try done. by destruct (Hs s). }
  eexists. split.
  - unfold list_orders. rewrite Hf. f_equal. f_equal.
    unfold JS.slice. by rewrite drop_nil, take_nil.
  - reflexivity.
Qed.

(** X25.  Without query parameters the list holds the first ten orders,
    on page 1 with limit 10, total the number of orders and a page count of
    that number over ten, rounded up. *)
Theorem default_query_lists_first_ten orders :
  list_orders None None VUndefined orders =
    (OrderList 200 (take 10 orders)
       {| Pagination.page := 1;
          Pagination.limit := 10;
          Pagination.total := length orders;
          Pagination.pages := Some ((Z.of_nat (length orders) + 9) / 10)%Z |},
     orders).
Proof.
  unfold list_orders. cbn [from_option]. unfold id.
  rewrite filter_by_status_falsy by done.
  change ((1 - 1) * 10)%Z with (0 + 0)%Z. change (1 * 10)%Z with (0 + 10)%Z.
  replace (JS.slice (0 + 0) (0 + 10) orders) with (take 10 orders).
  2: { replace (0 + 0)%Z with 0%Z by done.
       rewrite (slice_window orders 0 10) by lia. by rewrite drop_0. }
  do 3 f_equal. unfold JS.ceil_div. cbn [Z.eqb]. f_equal.
  Z.div_mod_to_equations. lia.
Qed.

Lemma filter_status_count (orders : list order) :
  Forall (λ o, known_status (Order.status o)) orders →
  (length (filter_by_status (VStr "pending") orders)
   + length (filter_by_status (VStr "processing") orders)
   + length (filter_by_status (VStr "shipped") orders)
   + length (filter_by_status (VStr "delivered") orders)
   + length (filter_by_status (VStr "cancelled") orders))%nat
  = length orders.
Proof.
  rewrite !filter_by_status_string by discriminate.
  induction 1 as [|o orders Ho _ IH]; [done|].
  rewrite !filter_cons. unfold known_status in Ho.
  destruct Ho as [Ho|[Ho|[Ho|[Ho|Ho]]]]; rewrite Ho;
    repeat (first [rewrite decide_True by reflexivity
                  |rewrite decide_False by discriminate]);
    cbn [length]; lia.
Qed.

(** X26.  After any sequence of requests on the empty store the orders
    that the five status filters select add up to all orders. *)
Theorem status_filters_partition rs :
  (length (filter_by_status (VStr "pending") (run rs []))
   + length (filter_by_status (VStr "processing") (run rs []))
   + length (filter_by_status (VStr "shipped") (run rs []))
   + length (filter_by_status (VStr "delivered") (run rs []))
   + length (filter_by_status (VStr "cancelled") (run rs [])))%nat
  = length (run rs []).
Proof.
  apply filter_status_count.
  induction rs as [|r rs IH] using rev_ind; [constructor|].
  rewrite run_snoc. apply handle_preserves; try done.
  intros. unfold known_status. cbn. auto.
Qed.

End Properties.

(** * Examples *)

(** The requests of the examples hold JSON numbers and no numeric string,
    so that nothing in them depends on how such a string is read; they are
    run with the conversion [json_numbers]. *)

Lemma create_reports_first_violation_witness :
  violations orderSchema customer_only =
    [message "items" "is required"; message "shippingAddress" "is required"] ∧
  create "u1" "t1" "t2" customer_only [] =
    (ValidationFailed 400 "Validation failed" [message "items" "is required"], []).
Proof.
  split; [reflexivity|].
  apply (create_reports_first_violation "u1" "t1" "t2" customer_only []
           (message "items" "is required")
           [message "shippingAddress" "is required"]).
  reflexivity.
Defined.

(** C1 as stated fails: an input with a customer only violates two
    constraints, and the response carries one message. *)
Lemma create_omits_later_violations :
  violations orderSchema customer_only =
    [message "items" "is required"; message "shippingAddress" "is required"] ∧
  (create "u1" "t1" "t2" customer_only []).1 =
    ValidationFailed 400 "Validation failed" [message "items" "is required"].
Proof. split; reflexivity. Qed.

Lemma list_orders_page_witness :
  ∃ paginated pages,
    list_orders_query (Some "2") (Some "1") VUndefined two_orders =
      Some (OrderList 200 paginated
              {| Pagination.page := 2;
                 Pagination.limit := 1;
                 Pagination.total := 2;
                 Pagination.pages := Some pages |},
            two_orders) ∧
    Order.id <$> paginated = ["u2"] ∧ pages = 2%Z.
Proof.
  destruct (list_orders_page "2" "1" 2 1 VUndefined two_orders)
    as (paginated & pages & Hr & Hpage & _ & _ & Hpages);
    [done|done|reflexivity|reflexivity|].
  exists paginated, pages. split; [exact Hr|]. split; [by rewrite Hpage|].
  change (length _) with 2%nat in Hpages. lia.
Defined.

Lemma update_status_validates_first_witness :
  update_status "t" "non-existent" (VStr "invalid-status") [] =
    (InvalidStatus 400 "Invalid status"
       ["pending"; "processing"; "shipped"; "delivered"; "cancelled"], []) ∧
  update_status "t" "non-existent" (VStr "processing") [] =
    (ErrorJson 404 "Order not found", []).
Proof.
  split.
  - apply (proj1 (update_status_validates_first "t" "non-existent"
                    (VStr "invalid-status") [])).
    intros s [= <-] H. unfold known_status in H.
    repeat (destruct H as [H|H]; [discriminate|]). discriminate.
  - apply (proj2 (update_status_validates_first "t" "non-existent"
                    (VStr "processing") []) "processing");
      [reflexivity| |constructor].
    unfold known_status. auto.
Defined.

(** C3 as stated fails on what the error reports: the rejected value is
    not among the strings of the response. *)
Lemma invalid_status_value_not_reported :
  (update_status "t" "u1" (VStr "refunded") []).1 =
    InvalidStatus 400 "Invalid status" validStatuses ∧
  "refunded" ∉ error_strings (update_status "t" "u1" (VStr "refunded") []).1.
Proof.
  split; [reflexivity|]. cbn. intros H.
  repeat (apply elem_of_cons in H as [H|H]; [discriminate|]).
  by apply elem_of_nil in H.
Qed.



Lemma list_orders_filter_witness :
  ∃ paginated pg,
    (list_orders None None (VStr "shipped") second_shipped).1 =
      OrderList 200 paginated pg ∧
    Forall (λ o, Order.status o = "shipped") paginated ∧
    Order.id <$> paginated = ["u2"] ∧
    Pagination.total pg = 1%nat.
Proof.
  destruct (list_orders_filter None None (VStr "shipped") second_shipped)
    as (paginated & pg & Hr & Hpage & Htotal & _ & Hfilter & _).
  destruct (Hfilter "shipped" eq_refl) as [_ Hall]; [discriminate|].
  exists paginated, pg. split; [by rewrite Hr|]. split; [exact Hall|].
  split; [by rewrite Hpage|exact Htotal].
Defined.

(** C5 as stated fails for the empty string: with that filter the answer
    holds the pending orders of the store, none of which has the empty
    status, and total counts them. *)
Lemma list_orders_empty_status_lists_all :
  ∃ o1 o2 pg,
    (list_orders None None (VStr "") two_orders).1 =
      OrderList 200 [o1; o2] pg ∧
    Order.status o1 = "pending" ∧ Order.status o2 = "pending" ∧
    Pagination.total pg = 2%nat.
Proof. eexists _, _, _. split; [reflexivity|]. repeat split. Qed.


Lemma delete_order_removes_witness :
  ∃ o rest,
    two_orders !! 0%nat = Some o ∧
    delete_order "u1" two_orders =
      (Deleted 200 "Order deleted successfully" (Some o), rest) ∧
    Order.id <$> rest = ["u2"] ∧
    get_order "u1" rest = (ErrorJson 404 "Order not found", rest).
Proof.
  destruct (two_orders !! 0%nat) as [o|] eqn:Ho; [|discriminate].
  destruct (delete_order_removes "u1" o two_orders)
    as (rest & Hdel & Hrest & _ & _ & _ & Hget & _).
  - unfold unique_ids. change (Order.id <$> two_orders) with ["u1"; "u2"].
    apply NoDup_cons. split; [|apply NoDup_singleton].
    intros H%list_elem_of_singleton. discriminate.
  - by eapply list_elem_of_lookup_2.
  - by injection Ho as <-.
  - exists o, rest. split; [done|]. split; [exact Hdel|].
    split; [by rewrite Hrest|exact Hget].
Defined.

Lemma update_status_frame_witness :
  ∃ o o' orders',
    two_orders !! 1%nat = Some o ∧
    update_status "t3" "u2" (VStr "shipped") two_orders =
      (OrderJson 200 o', orders') ∧
    Order.status o = "pending" ∧ Order.status o' = "shipped" ∧
    Order.updatedAt o' = "t3" ∧ Order.createdAt o' = "t2" ∧
    orders' !! 0%nat = two_orders !! 0%nat.
Proof.
  destruct (two_orders !! 1%nat) as [o|] eqn:Ho; [|discriminate].
  destruct (update_status_frame "t3" "u2" "shipped" two_orders 1 o)
    as (o' & orders' & Hr & Hs & Hu & _ & _ & _ & _ & _ & Hc & _ & _ & Hframe).
  - unfold known_status. auto.
  - reflexivity.
  - exact Ho.
  - exists o, o', orders'. split; [done|]. split; [exact Hr|].
    injection Ho as <-. split; [reflexivity|]. split; [exact Hs|].
    split; [exact Hu|]. split; [exact Hc|]. by apply Hframe.
Defined.

(** The scenario of the test suite from end to end: a creation, a status
    update, a deletion, and a read of the deleted id. *)
Example end_to_end :
  ∃ o o',
    create "u1" "t1" "t1" validOrder [] = (OrderJson 201 o, [o]) ∧
    Order.total o = 59.98%float ∧ Order.status o = "pending" ∧
    update_status "t2" "u1" (VStr "processing") [o] = (OrderJson 200 o', [o']) ∧
    Order.status o' = "processing" ∧
    delete_order "u1" [o'] =
      (Deleted 200 "Order deleted successfully" (Some o'), []) ∧
    get_order "u1" [] = (ErrorJson 404 "Order not found", []).
Proof. eexists _, _. repeat split. Qed.

(** Validation reads the copy of the body: a property named __proto__ is
    no unknown key of it, and the fields of the object under that name
    count as fields of the body. *)
Example create_reads_the_copy :
  create "u1" "t1" "t2" valid_order_with_proto [] =
    create "u1" "t1" "t2" validOrder [] ∧
  create "u1" "t1" "t2" fields_under_proto [] =
    create "u1" "t1" "t2" validOrder [] ∧
  missing_required fields_under_proto = false ∧
  ∃ o, create "u1" "t1" "t2" validOrder [] = (OrderJson 201 o, [o]).
Proof. repeat split. eexists. reflexivity. Qed.

(** ** Examples of the further properties *)

Lemma create_rejects_unknown_key_witness :
  ∃ details, details ≠ [] ∧
    create "u3" "t3" "t3" order_with_status two_orders =
      (ValidationFailed 400 "Validation failed" details, two_orders).
Proof.
  apply (create_rejects_unknown_key "u3" "t3" "t3" _ "status").
  - unfold JS.keys. cbn. rewrite !elem_of_cons. auto 10.
  - intros H. repeat (apply elem_of_cons in H as [H|H]; [discriminate|]).
    by apply elem_of_nil in H.
Defined.

Lemma create_rejects_bad_numbers_witness :
  ∃ details, details ≠ [] ∧
    create "u3" "t3" "t3" (VObj order_for_nothing) two_orders =
      (ValidationFailed 400 "Validation failed" details, two_orders).
Proof.
  apply (create_rejects_bad_numbers "u3" "t3" "t3" order_for_nothing
           [VObj free_item] free_item 0%float 29.99%float).
  - reflexivity.
  - apply list_elem_of_singleton. done.
  - reflexivity.
  - reflexivity.
  - right. left. reflexivity.
Defined.

Lemma created_order_mirrors_body_witness :
  ∃ o props elems,
    (create "u1" "t1" "t2" fields_under_proto []).1 = OrderJson 201 o ∧
    fields_under_proto = VObj props ∧
    get "customerId" props = VStr (customerId (Order.value o)) ∧
    customerId (Order.value o) = "customer-123" ∧
    get "items" props = VArr elems ∧
    length elems = length (items (Order.value o)).
Proof.
  assert (∃ o, (create "u1" "t1" "t2" fields_under_proto []).1 = OrderJson 201 o)
    as [o Hc] by (eexists; reflexivity).
  destruct (created_order_mirrors_body "u1" "t1" "t2" fields_under_proto [] o Hc)
    as (props & elems & Hb & Hcust & Hitems & Hall & _).
  exists o, props, elems. split_and!; try done.
  - by injection Hc as <-.
  - by eapply Forall2_length.
Defined.

Lemma ids_stay_unique_witness : unique_ids two_orders.
Proof.
  apply (ids_stay_unique [POST_orders "u1" "t1" "t1" validOrder;
                          POST_orders "u2" "t2" "t2" validOrder]).
  cbn [fresh_uuids]. split_and!; try done.
  - intros uuid now1 now2 body _. constructor.
  - intros uuid now1 now2 body [= <- _ _ _].
    constructor; [discriminate|constructor].
Defined.

Lemma delete_removes_first_witness :
  ∃ a b,
    same_id_twice = [a; b] ∧ Order.id b = "u1" ∧
    delete_order "u1" same_id_twice =
      (Deleted 200 "Order deleted successfully" (Some a), [b]).
Proof.
  destruct same_id_twice as [|a [|b [|]]] eqn:Hs; try discriminate.
  exists a, b. split; [done|].
  injection Hs as <- <-. split; [reflexivity|].
  apply (delete_removes_first "u1" [] _ [_]); [constructor|reflexivity].
Defined.

Lemma get_returns_first_witness :
  ∃ a b,
    same_id_twice = [a; b] ∧ Order.createdAt a = "t1" ∧
    get_order "u1" same_id_twice = (OrderJson 200 a, same_id_twice).
Proof.
  destruct same_id_twice as [|a [|b [|]]] eqn:Hs; try discriminate.
  exists a, b. split; [done|].
  injection Hs as <- <-. split; [reflexivity|].
  apply (get_returns_first "u1" [] _ [_]); [constructor|reflexivity].
Defined.

Lemma get_finds_stored_order_witness :
  ∃ o, two_orders !! 1%nat = Some o ∧
    get_order "u2" two_orders = (OrderJson 200 o, two_orders).
Proof.
  destruct (two_orders !! 1%nat) as [o|] eqn:Ho; [|discriminate].
  exists o. split; [done|].
  assert (Order.id o = "u2") as <- by (by injection Ho as <-).
  apply get_finds_stored_order.
  - unfold unique_ids. change (Order.id <$> two_orders) with ["u1"; "u2"].
    apply NoDup_cons. split; [|apply NoDup_singleton].
    intros H%list_elem_of_singleton. discriminate.
  - by eapply list_elem_of_lookup_2.
Defined.

Lemma create_then_delete_witness :
  ∃ o,
    create "u3" "t3" "t3" validOrder two_orders =
      (OrderJson 201 o, two_orders ++ [o]) ∧
    delete_order "u3" (two_orders ++ [o]) =
      (Deleted 200 "Order deleted successfully" (Some o), two_orders).
Proof.
  apply create_then_delete; [|discriminate|reflexivity].
  repeat (constructor; [discriminate|]). constructor.
Defined.

Lemma last_update_wins_witness :
  update_status "t4" "u2" (VStr "delivered")
    (update_status "t3" "u2" (VStr "shipped") two_orders).2 =
  update_status "t4" "u2" (VStr "delivered") two_orders.
Proof.
  apply last_update_wins; unfold known_status; auto.
Defined.

Lemma update_then_get_witness :
  ∃ o' orders',
    update_status "t3" "u2" (VStr "shipped") two_orders =
      (OrderJson 200 o', orders') ∧
    Order.status o' = "shipped" ∧ Order.updatedAt o' = "t3" ∧
    get_order "u2" orders' = (OrderJson 200 o', orders').
Proof.
  apply (update_then_get "t3" "u2" "shipped" two_orders 1).
  - unfold known_status. auto.
  - reflexivity.
Defined.

Lemma pages_cover_witness :
  concat ((λ k : nat,
             listed (list_orders (Some (Z.of_nat (S k))) (Some 1%Z)
                       VUndefined two_orders).1)
          <$> seq 0 2) = two_orders.
Proof.
  eapply (pages_cover 1 VUndefined two_orders _ _ 2); [lia|reflexivity..].
Defined.

Lemma page_holds_at_most_limit_witness :
  (length (listed (list_orders (Some (-1)%Z) (Some 1%Z) VUndefined
                     two_orders).1) ≤ 1)%nat.
Proof.
  apply (page_holds_at_most_limit (Some (-1)%Z) (Some 1%Z) VUndefined
           two_orders).
  cbn. lia.
Defined.

Lemma zero_page_or_limit_lists_nothing_witness :
  ∃ pg,
    list_orders None (Some 0%Z) VUndefined two_orders =
      (OrderList 200 [] pg, two_orders) ∧
    Pagination.total pg = 2%nat ∧ Pagination.pages pg = None.
Proof.
  destruct (zero_page_or_limit_lists_nothing None (Some 0%Z) VUndefined
              two_orders) as (pg & Hr & Ht & Hp); [by right|].
  exists pg. split_and!; [done|exact Ht|by apply Hp].
Defined.

Lemma negative_limit_drops_last_witness :
  Order.id <$>
    listed (list_orders None (Some (-1)%Z) VUndefined two_orders).1 = ["u1"].
Proof.
  change (-1)%Z with (- Z.of_nat 1)%Z.
  rewrite (negative_limit_drops_last 1 VUndefined two_orders); [|lia].
  reflexivity.
Defined.

Lemma other_filter_values_match_nothing_witness :
  ∃ pg,
    list_orders None None (VArr [VStr "pending"]) two_orders =
      (OrderList 200 [] pg, two_orders) ∧
    Pagination.total pg = 0%nat.
Proof.
  apply other_filter_values_match_nothing; [reflexivity|discriminate].
Defined.
